(** * Url_shortner: the route handlers of [short-url-api/routes/shortUrl.js]

    A shallow embedding of the four Express handlers (create, redirect,
    alias analytics, topic analytics) together with the two tables of
    [sql/sqlurl.sql], and the properties of the analytics aggregation.

    Conventions of the embedding.
    - A JavaScript string is a [string]; [toLowerCase] is modelled on the
      ASCII letters, which is all the substring tests of the handlers
      (ASCII patterns) can observe.
    - A JavaScript value that may be [null] or [undefined] is an [option].
    - A plain object used as a dictionary is an association list in
      insertion order ([JsObject]); a [Set] is a [gset].
    - [db.query] is a call to the storage collaborator: it either hands
      the callback an error or the rows. Which calls fail is part of the
      [Storage] state ([outages]). The collaborator compares strings by
      equality and refuses values that do not fit their column.
    - [moment] dates are day numbers; only their 'YYYY-MM-DD' format and
      the subtraction of days are used. *)

From Stdlib Require Import ZArith Ascii String List Bool Lia DecimalString.
From stdpp Require Import base decidable option list sorting gmap strings.

Open Scope string_scope.

(** ** JavaScript strings *)

Module JsString.

(** [c.toLowerCase()] on one ASCII character. *)
Definition lower_ascii (c : ascii) : ascii :=
  let n := nat_of_ascii c in
  if (65 <=? n)%nat && (n <=? 90)%nat then ascii_of_nat (n + 32) else c.

(** [s.toLowerCase()] *)
Fixpoint toLowerCase (s : string) : string :=
  match s with
  | EmptyString => EmptyString
  | String c s' => String (lower_ascii c) (toLowerCase s')
  end.

(** [s.startsWith(p)] *)
Fixpoint startsWith (s p : string) : bool :=
  match p, s with
  | EmptyString, _ => true
  | String _ _, EmptyString => false
  | String b p', String a s' => Ascii.eqb a b && startsWith s' p'
  end.

(** [s.includes(p)]: [p] occurs in [s] as a contiguous substring. *)
Fixpoint includes (s p : string) : bool :=
  startsWith s p ||
  match s with
  | EmptyString => false
  | String _ s' => includes s' p
  end.

(** [a >= b] on strings: lexicographic on the code units. *)
Definition geb (a b : string) : bool := String.leb b a.

(** Truthiness of a value that is a string, null or undefined: only a
    non-empty string is truthy. [truthy v] is [v] when it is truthy. *)
Definition truthy (v : option string) : option string :=
  match v with
  | Some (String _ _ as s) => Some s
  | _ => None
  end.

(** [a || b] where [b] is another such value. *)
Definition or_else (a b : option string) : option string :=
  match truthy a with
  | Some s => Some s
  | None => b
  end.

End JsString.

Import JsString.

(** ** Classification of a user agent (alias analytics, the two forEach bodies) *)

(** The [osName] chosen for an already lower-cased user agent. *)
Definition osNameOf (userAgent : string) : string :=
  if includes userAgent "windows" then "Windows"
  else if includes userAgent "mac" then "macOS"
  else if includes userAgent "linux" then "Linux"
  else if includes userAgent "android" then "Android"
  else if includes userAgent "ios" || includes userAgent "iphone" then "iOS"
  else "Other".

(** The [deviceName] chosen for an already lower-cased user agent. *)
Definition deviceNameOf (userAgent : string) : string :=
  if includes userAgent "mobile" || includes userAgent "android"
     || includes userAgent "iphone"
  then "mobile" else "desktop".

(** The classification as the specification words it: an ordered table of
    (pattern alternatives, bucket), first row with a matching pattern wins. *)
Definition os_table : list (list string * string) :=
  [ (["windows"], "Windows"); (["mac"], "macOS"); (["linux"], "Linux");
    (["android"], "Android"); (["ios"; "iphone"], "iOS") ].

Definition os_buckets : list string :=
  ["Windows"; "macOS"; "Linux"; "Android"; "iOS"; "Other"].

Definition device_buckets : list string := ["mobile"; "desktop"].

(** [ci_contains ua p]: some contiguous part of [ua] equals [p] up to
    the case of its letters. *)
Definition ci_contains (ua p : string) : Prop :=
  exists pre mid post, ua = pre ++ mid ++ post /\ toLowerCase mid = p.

Fixpoint first_match (ua : string) (table : list (list string * string))
  (default : string) : string :=
  match table with
  | [] => default
  | (pats, bucket) :: rest =>
      if existsb (includes (toLowerCase ua)) pats then bucket
      else first_match ua rest default
  end.

Definition os_spec (ua : string) : string := first_match ua os_table "Other".

(** ** Dates: the part of [moment] the handlers use *)

Module Moment.

(** A calendar date, as the number of days since 1970-01-01. The
    handlers only ever look at the date part of a timestamp. *)
Definition Date := Z.

(** Year, month and day of a day number (proleptic Gregorian). *)
Definition civil (z0 : Date) : Z * Z * Z :=
  let z := (z0 + 719468)%Z in
  let era := (z / 146097)%Z in
  let doe := (z - era * 146097)%Z in
  let yoe := ((doe - doe / 1460 + doe / 36524 - doe / 146096) / 365)%Z in
  let doy := (doe - (365 * yoe + yoe / 4 - yoe / 100))%Z in
  let mp := ((5 * doy + 2) / 153)%Z in
  let d := (doy - (153 * mp + 2) / 5 + 1)%Z in
  let m := (if (mp <? 10)%Z then mp + 3 else mp - 9)%Z in
  let y := (yoe + era * 400 + (if (m <=? 2)%Z then 1 else 0))%Z in
  (y, m, d).

(** [zeroFill(number, targetLength)]: the sign of a negative number,
    then zeros up to [targetLength] characters, then the decimal digits
    of the absolute value. *)
Definition zeroFill (number : Z) (targetLength : nat) : string :=
  let absNumber := NilZero.string_of_uint (N.to_uint (Z.abs_N number)) in
  let zerosToFill := (targetLength - String.length absNumber)%nat in
  (if (0 <=? number)%Z then "" else "-")
    ++ String.concat "" (repeat "0" zerosToFill) ++ absNumber.

(** [moment(d).format('YYYY-MM-DD')] *)
Definition format (d : Date) : string :=
  let '(y, m, dd) := civil d in
  zeroFill y 4 ++ "-" ++ zeroFill m 2 ++ "-" ++ zeroFill dd 2.

(** [moment(d).subtract(n, 'days')] *)
Definition subtract_days (n : Z) (d : Date) : Date := (d - n)%Z.

End Moment.

(** ** Plain objects used as dictionaries *)

Module JsObject.

(** The names every object literal inherits from [Object.prototype]:
    reading one of them on [{}] yields a function (or, for [__proto__],
    the prototype object), never [undefined]. *)
Definition prototype_keys : list string :=
  [ "constructor"; "__defineGetter__"; "__defineSetter__"; "hasOwnProperty";
    "__lookupGetter__"; "__lookupSetter__"; "isPrototypeOf";
    "propertyIsEnumerable"; "toString"; "valueOf"; "__proto__";
    "toLocaleString" ].

(** A key is an array index when it is the canonical decimal spelling of
    an integer below 2^32 - 1; such keys are enumerated first. *)
Definition array_index (k : string) : option N :=
  match NilZero.uint_of_string k with
  | Some u =>
      let n := N.of_uint u in
      if String.eqb (NilZero.string_of_uint (N.to_uint n)) k
         && (n <? 4294967295)%N
      then Some n else None
  | None => None
  end.

Section properties.
Context {V : Type}.

(** The own properties, in the order they were created. *)
Definition t := list (string * V).

(** [o[k]] on the own properties. *)
Fixpoint get (k : string) (o : t) : option V :=
  match o with
  | [] => None
  | (k', v) :: o' => if String.eqb k' k then Some v else get k o'
  end.

(** [o[k] = v]: overwrite in place, or create at the end. *)
Fixpoint put (k : string) (v : V) (o : t) : t :=
  match o with
  | [] => [(k, v)]
  | (k', v') :: o' =>
      if String.eqb k' k then (k, v) :: o' else (k', v') :: put k v o'
  end.

Definition index_of (e : string * V) : N := default 0%N (array_index e.1).

Definition index_le (a b : string * V) : Prop := (index_of a <= index_of b)%N.

#[global] Instance index_le_dec a b : Decision (index_le a b).
Proof. unfold index_le. apply _. Defined.

(** [Object.entries(o)]: array-index keys in ascending order, then the
    other keys in creation order. *)
Definition entries (o : t) : list (string * V) :=
  merge_sort index_le
    (filter (fun e => is_Some (array_index e.1)) o)
  ++ filter (fun e => ~ is_Some (array_index e.1)) o.

(** [Object.keys(o)] and [Object.values(o)] *)
Definition keys (o : t) : list string := map fst (entries o).
Definition values (o : t) : list V := map snd (entries o).
End properties.

Arguments t : clear implicits.

End JsObject.

(** ** The storage collaborator: the tables of [sql/sqlurl.sql] and [db.query] *)

Module Urls.
(** A row of table [urls] ([id] and [created_at] are never read). *)
Record row := {
  long_url : string;
  short_url : string;
  custom_alias : option string;
  topic : option string;
}.
End Urls.

Module UrlAnalytics.
(** A row of table [url_analytics]; of [timestamp] only [DATE(timestamp)]
    is ever read. *)
Record row := {
  alias : string;
  timestamp : Moment.Date;
  user_agent : option string;
  ip_address : option string;
  geolocation : option string;
}.
End UrlAnalytics.

(** A row of the two grouped analytics queries, as the callbacks read it.
    Both queries select [alias], [click_date], [user_agent],
    [total_clicks] and [unique_users]; the callbacks also read
    [record.ip_address], which is [undefined] ([None]) on a row that has
    no such column. *)
Record Row := {
  alias : string;
  click_date : Moment.Date;
  user_agent : option string;
  total_clicks : nat;
  unique_users : nat;
  ip_address : option string;
}.

(** What the callback of [db.query] receives. *)
Inductive QueryResult (A : Type) : Type :=
| QError (message : string)
| QRows (results : list A).
Arguments QError {A} message.
Arguments QRows {A} results.

(** The state of the collaborator: the two tables; for each coming
    [db.query] call whether it will fail ([true]: the callback gets [err]),
    past the end of the list no call fails; and [pasted_sql], what it
    answers to a statement into which the handlers pasted values that
    contain a quote or a backslash: such text is not the statement the
    code meant, and what it means instead (a syntax error, another WHERE
    clause) is for the collaborator to say. *)
Record Storage := {
  urls : list Urls.row;
  url_analytics : list UrlAnalytics.row;
  outages : list bool;
  pasted_sql : string -> QueryResult Row;
}.

Definition pop_outage (st : Storage) : bool * Storage :=
  match outages st with
  | [] => (false, st)
  | down :: rest =>
      (down, {| urls := urls st; url_analytics := url_analytics st; outages := rest;
                pasted_sql := pasted_sql st |})
  end.

(** A SELECT: [rows] computes the result from the tables. *)
Definition db_select {A : Type} (rows : Storage -> list A) (st : Storage)
  : QueryResult A * Storage :=
  let (down, st') := pop_outage st in
  if down then (QError "connection lost", st') else (QRows (rows st'), st').

(** [SELECT * FROM urls WHERE short_url = ? OR custom_alias = ? LIMIT 1] *)
Definition matches_alias (alias : string) (u : Urls.row) : Prop :=
  Urls.short_url u = alias \/ Urls.custom_alias u = Some alias.

#[global] Instance matches_alias_dec alias u : Decision (matches_alias alias u).
Proof. unfold matches_alias. apply _. Defined.

Definition findUrlQuery (alias : string) : Storage -> QueryResult Urls.row * Storage :=
  db_select (fun st => take 1 (filter (matches_alias alias) (urls st))).

(** [SELECT * FROM urls WHERE custom_alias = ?]; an undefined parameter is
    sent as NULL, and [custom_alias = NULL] holds of no row. *)
Definition checkAliasQuery (customAlias : option string)
  : Storage -> QueryResult Urls.row * Storage :=
  db_select (fun st =>
    match customAlias with
    | None => []
    | Some a => filter (fun u => Urls.custom_alias u = Some a) (urls st)
    end).

(** [SELECT * FROM urls WHERE topic = ?] *)
Definition topicUrlsQuery (topic : string)
  : Storage -> QueryResult Urls.row * Storage :=
  db_select (fun st => filter (fun u => Urls.topic u = Some topic) (urls st)).

(** The constraints of table [urls]: [short_url] UNIQUE, [custom_alias]
    UNIQUE (NULLs do not collide), and the VARCHAR(50) columns (a longer
    value is refused, not truncated). *)
Definition urls_accepts (table : list Urls.row) (r : Urls.row) : Prop :=
  (Urls.short_url r ∉ map Urls.short_url table)
  /\ (forall a, Urls.custom_alias r = Some a -> Some a ∉ map Urls.custom_alias table)
  /\ (String.length (Urls.short_url r) <= 50)%nat
  /\ (String.length (default "" (Urls.custom_alias r)) <= 50)%nat
  /\ (String.length (default "" (Urls.topic r)) <= 50)%nat.

#[global] Instance urls_accepts_dec table r : Decision (urls_accepts table r).
Proof.
  unfold urls_accepts.
  assert (Decision (forall a, Urls.custom_alias r = Some a ->
                              Some a ∉ map Urls.custom_alias table)).
  { destruct (Urls.custom_alias r) as [a|].
    - destruct (decide (Some a ∈ map Urls.custom_alias table)) as [Hin|Hout].
      + right. intros H. exact (H a eq_refl Hin).
      + left. intros b [= <-]. exact Hout.
    - left. intros a [=]. }
  apply _.
Defined.

(** [INSERT INTO urls (long_url, short_url, custom_alias, topic) VALUES (?, ?, ?, ?)] *)
Definition insertQuery (r : Urls.row) (st : Storage) : QueryResult unit * Storage :=
  let (down, st') := pop_outage st in
  if down then (QError "connection lost", st')
  else if decide (urls_accepts (urls st') r) then
    (QRows [],
     {| urls := urls st' ++ [r]; url_analytics := url_analytics st';
        outages := outages st'; pasted_sql := pasted_sql st' |})
  else (QError "constraint violated", st').

(** [INSERT INTO url_analytics (alias, user_agent, ip_address, geolocation)
    VALUES (?, ?, ?, ?)]; [timestamp] defaults to the current time. *)
Definition insertAnalyticsQuery (e : UrlAnalytics.row) (st : Storage)
  : QueryResult unit * Storage :=
  let (down, st') := pop_outage st in
  if down then (QError "connection lost", st')
  else if decide (String.length (UrlAnalytics.alias e) <= 50
                  /\ String.length (default "" (UrlAnalytics.ip_address e)) <= 50)%nat then
    (QRows [],
     {| urls := urls st'; url_analytics := url_analytics st' ++ [e];
        outages := outages st'; pasted_sql := pasted_sql st' |})
  else (QError "constraint violated", st').

(** GROUP BY: one group per distinct key (the order of the groups is
    left to the collaborator; no statement below depends on it). *)
Definition group_by {K : Type} `{EqDecision K} (key : UrlAnalytics.row -> K)
  (events : list UrlAnalytics.row) : list (list UrlAnalytics.row) :=
  map (fun k => filter (fun e => key e = k) events) (remove_dups (map key events)).

(** The select list of both queries, on one group: [COUNT( * )],
    [COUNT(DISTINCT ip_address)] (NULLs not counted), and the grouped
    columns, read off the first row of the group. *)
Definition select_group (g : list UrlAnalytics.row) : option Row :=
  match g with
  | [] => None
  | e :: _ =>
      Some {| alias := UrlAnalytics.alias e;
              click_date := UrlAnalytics.timestamp e;
              user_agent := UrlAnalytics.user_agent e;
              total_clicks := length g;
              unique_users :=
                size (list_to_set (omap UrlAnalytics.ip_address g) : gset string);
              ip_address := None |}
  end.

(** [SELECT ... FROM url_analytics WHERE alias = ?
     GROUP BY alias, DATE(timestamp), user_agent] *)
Definition analyticsQuery (a : string) : Storage -> QueryResult Row * Storage :=
  db_select (fun st =>
    omap select_group
      (group_by (fun e => (UrlAnalytics.alias e, UrlAnalytics.timestamp e,
                           UrlAnalytics.user_agent e))
         (filter (fun e => UrlAnalytics.alias e = a) (url_analytics st)))).

(** The backslash (character 92), the escape character of a string
    literal of the collaborator. *)
Definition backslash : string := String (Ascii.ascii_of_nat 92) EmptyString.

(** A value that stays one string literal when it is pasted between
    single quotes: it has no quote and no backslash. *)
Definition plain_literal (s : string) : bool :=
  negb (includes s "'") && negb (includes s backslash).

(** [urlsResults.map(url => `'${url.short_url}'`).join(',')] *)
Definition quoted_list (aliases : list string) : string :=
  String.concat "," (map (fun a => "'" ++ a ++ "'") aliases).

(** [SELECT ... FROM url_analytics WHERE alias IN (${aliases})
     GROUP BY alias, DATE(timestamp)]. The tokens are pasted into the
    text unescaped: when each of them is a plain literal the IN list is
    the list of the tokens; otherwise the answer is what the collaborator
    makes of the text. [user_agent] is selected but not grouped: a
    collaborator that accepts the query returns the value of some row of
    the group, and the callback never reads it. *)
Definition topicAnalyticsQuery (aliases : list string) (st : Storage)
  : QueryResult Row * Storage :=
  let (down, st') := pop_outage st in
  if down then (QError "connection lost", st')
  else if forallb plain_literal aliases then
    (QRows
       (omap select_group
          (group_by (fun e => (UrlAnalytics.alias e, UrlAnalytics.timestamp e))
             (filter (fun e => UrlAnalytics.alias e ∈ aliases) (url_analytics st')))),
     st')
  else (pasted_sql st' (quoted_list aliases), st').

(** ** The analytics aggregation (callback of [GET /analytics/:alias]) *)

Inductive Exception : Type :=
| TypeError (message : string).

(** [rows.forEach(body)] where [body] updates a local accumulator and may
    throw. *)
Fixpoint forEach {S : Type} (body : S -> Row -> Exception + S) (rows : list Row)
  (acc : S) : Exception + S :=
  match rows with
  | [] => inr acc
  | record :: rest =>
      match body acc record with
      | inl e => inl e
      | inr acc' => forEach body rest acc'
      end
  end.

Module Bucket.
(** A value of [osTypeMap] or [deviceTypeMap]:
    [{ osName, uniqueClicks: 0, uniqueUsers: new Set() }]. *)
Record t := {
  name : string;
  uniqueClicks : nat;
  uniqueUsers : gset (option string);
}.
End Bucket.

Module ClickCount.
Record t := { date : string; clickCount : nat }.
End ClickCount.

Module OsEntry.
Record t := { osName : string; uniqueClicks : nat; uniqueUsers : nat }.
End OsEntry.

Module DeviceEntry.
Record t := { deviceName : string; uniqueClicks : nat; uniqueUsers : nat }.
End DeviceEntry.

Module AliasReport.
Record t := {
  totalClicks : nat;
  uniqueUsers : nat;
  clicksByDate : list ClickCount.t;
  osType : list OsEntry.t;
  deviceType : list DeviceEntry.t;
}.
End AliasReport.

(** [analyticsResults.reduce((sum, record) => sum + record.total_clicks, 0)] *)
Definition totalClicksOf (analyticsResults : list Row) : nat :=
  fold_left (fun sum record => sum + total_clicks record) analyticsResults 0.

(** [new Set(analyticsResults.map(record => record.ip_address)).size] *)
Definition uniqueUsersOf (analyticsResults : list Row) : nat :=
  size (list_to_set (map ip_address analyticsResults) : gset (option string)).

(** The body of the [clicksByDate] loop. The keys are formatted dates,
    which are never names inherited from [Object.prototype]
    (see [format_not_inherited]). *)
Definition clicksByDateStep (sevenDaysAgo : string) (clicksByDate : JsObject.t nat)
  (record : Row) : JsObject.t nat :=
  let clickDate := Moment.format (click_date record) in
  if geb clickDate sevenDaysAgo then
    JsObject.put clickDate
      (default 0 (JsObject.get clickDate clicksByDate) + total_clicks record)
      clicksByDate
  else clicksByDate.

Definition clicksByDateOf (today : Moment.Date) (analyticsResults : list Row)
  : JsObject.t nat :=
  let sevenDaysAgo := Moment.format (Moment.subtract_days 7 today) in
  fold_left (clicksByDateStep sevenDaysAgo) analyticsResults [].

Definition clicksByDateArrayOf (clicksByDate : JsObject.t nat) : list ClickCount.t :=
  map (fun '(date, count) => {| ClickCount.date := date; ClickCount.clickCount := count |})
    (JsObject.entries clicksByDate).

(** The body of the [osTypeMap] and of the [deviceTypeMap] loop; the two
    differ only in how the lower-cased user agent is classified.
    [record.user_agent.toLowerCase()] throws when the column is NULL. *)
Definition bucketStep (classify : string -> string) (typeMap : JsObject.t Bucket.t)
  (record : Row) : Exception + JsObject.t Bucket.t :=
  match user_agent record with
  | None => inl (TypeError "Cannot read properties of null (reading 'toLowerCase')")
  | Some ua =>
      let userAgent := toLowerCase ua in
      let name := classify userAgent in
      let data :=
        default {| Bucket.name := name; Bucket.uniqueClicks := 0; Bucket.uniqueUsers := ∅ |}
          (JsObject.get name typeMap) in
      inr (JsObject.put name
             {| Bucket.name := Bucket.name data;
                Bucket.uniqueClicks := Bucket.uniqueClicks data + total_clicks record;
                Bucket.uniqueUsers := {[ ip_address record ]} ∪ Bucket.uniqueUsers data |}
             typeMap)
  end.

Definition osTypeMapOf (analyticsResults : list Row) : Exception + JsObject.t Bucket.t :=
  forEach (bucketStep osNameOf) analyticsResults [].

Definition deviceTypeMapOf (analyticsResults : list Row) : Exception + JsObject.t Bucket.t :=
  forEach (bucketStep deviceNameOf) analyticsResults [].

Definition osTypeArrayOf (osTypeMap : JsObject.t Bucket.t) : list OsEntry.t :=
  map (fun osData =>
         {| OsEntry.osName := Bucket.name osData;
            OsEntry.uniqueClicks := Bucket.uniqueClicks osData;
            OsEntry.uniqueUsers := size (Bucket.uniqueUsers osData) |})
    (JsObject.values osTypeMap).

Definition deviceTypeArrayOf (deviceTypeMap : JsObject.t Bucket.t) : list DeviceEntry.t :=
  map (fun deviceData =>
         {| DeviceEntry.deviceName := Bucket.name deviceData;
            DeviceEntry.uniqueClicks := Bucket.uniqueClicks deviceData;
            DeviceEntry.uniqueUsers := size (Bucket.uniqueUsers deviceData) |})
    (JsObject.values deviceTypeMap).

(** The whole callback: what it would send, or the exception it throws. *)
Definition aliasReport (today : Moment.Date) (analyticsResults : list Row)
  : Exception + AliasReport.t :=
  let totalClicks := totalClicksOf analyticsResults in
  let uniqueUsers := uniqueUsersOf analyticsResults in
  let clicksByDateArray := clicksByDateArrayOf (clicksByDateOf today analyticsResults) in
  match osTypeMapOf analyticsResults with
  | inl e => inl e
  | inr osTypeMap =>
      match deviceTypeMapOf analyticsResults with
      | inl e => inl e
      | inr deviceTypeMap =>
          inr {| AliasReport.totalClicks := totalClicks;
                 AliasReport.uniqueUsers := uniqueUsers;
                 AliasReport.clicksByDate := clicksByDateArray;
                 AliasReport.osType := osTypeArrayOf osTypeMap;
                 AliasReport.deviceType := deviceTypeArrayOf deviceTypeMap |}
      end
  end.

(** ** The topic roll-up (callback of [GET /analytics/topic/:topic]) *)

Module UrlAcc.
(** A value of [urlsAnalytics]: [{ totalClicks: 0, uniqueUsers: new Set() }]. *)
Record t := { totalClicks : nat; uniqueUsers : gset (option string) }.
End UrlAcc.

Module UrlEntry.
Record t := { shortUrl : string; totalClicks : nat; uniqueUsers : nat }.
End UrlEntry.

Module TopicReport.
Record t := {
  totalClicks : nat;
  uniqueUsers : nat;
  clicksByDate : list ClickCount.t;
  urls : list UrlEntry.t;
}.
End TopicReport.

Module TopicAcc.
(** The four locals the [forEach] of the topic callback updates. *)
Record t := {
  totalClicks : nat;
  uniqueUsersSet : gset (option string);
  clicksByDate : JsObject.t nat;
  urlsAnalytics : JsObject.t UrlAcc.t;
}.
End TopicAcc.

(** The body of the topic loop. [urlsAnalytics[record.alias]] is looked up
    on the own properties first and then on [Object.prototype]: for an
    inherited name the guard [!urlsAnalytics[record.alias]] is false, no
    entry is created, and [.uniqueUsers.add] is called on [undefined]. *)
Definition topicStep (acc : TopicAcc.t) (record : Row) : Exception + TopicAcc.t :=
  let totalClicks := TopicAcc.totalClicks acc + total_clicks record in
  let uniqueUsersSet := {[ ip_address record ]} ∪ TopicAcc.uniqueUsersSet acc in
  let clickDate := Moment.format (click_date record) in
  let clicksByDate0 :=
    match default 0 (JsObject.get clickDate (TopicAcc.clicksByDate acc)) with
    | O => JsObject.put clickDate 0 (TopicAcc.clicksByDate acc)
    | S _ => TopicAcc.clicksByDate acc
    end in
  let clicksByDate :=
    JsObject.put clickDate
      (default 0 (JsObject.get clickDate clicksByDate0) + total_clicks record)
      clicksByDate0 in
  let urlsAnalytics := TopicAcc.urlsAnalytics acc in
  let update (data : UrlAcc.t) :=
    inr {| TopicAcc.totalClicks := totalClicks;
           TopicAcc.uniqueUsersSet := uniqueUsersSet;
           TopicAcc.clicksByDate := clicksByDate;
           TopicAcc.urlsAnalytics :=
             JsObject.put (alias record)
               {| UrlAcc.totalClicks := UrlAcc.totalClicks data + total_clicks record;
                  UrlAcc.uniqueUsers := {[ ip_address record ]} ∪ UrlAcc.uniqueUsers data |}
               urlsAnalytics |} in
  match JsObject.get (alias record) urlsAnalytics with
  | Some data => update data
  | None =>
      if decide (alias record ∈ JsObject.prototype_keys) then
        inl (TypeError "Cannot read properties of undefined (reading 'add')")
      else update {| UrlAcc.totalClicks := 0; UrlAcc.uniqueUsers := ∅ |}
  end.

(** The callback of [Object.keys(urlsAnalytics).map]. *)
Definition urlEntryOf (urlsResults : list Urls.row) (urlsAnalytics : JsObject.t UrlAcc.t)
  (a : string) : Exception + UrlEntry.t :=
  match find (fun url => String.eqb (Urls.short_url url) a) urlsResults,
        JsObject.get a urlsAnalytics with
  | Some urlInfo, Some data =>
      inr {| UrlEntry.shortUrl := Urls.short_url urlInfo;
             UrlEntry.totalClicks := UrlAcc.totalClicks data;
             UrlEntry.uniqueUsers := size (UrlAcc.uniqueUsers data) |}
  | None, _ => inl (TypeError "Cannot read properties of undefined (reading 'short_url')")
  | _, None => inl (TypeError "Cannot read properties of undefined (reading 'totalClicks')")
  end.

(** [array.map(f)] where [f] may throw. *)
Fixpoint mapThrowing {A B : Type} (f : A -> Exception + B) (l : list A)
  : Exception + list B :=
  match l with
  | [] => inr []
  | x :: rest =>
      match f x with
      | inl e => inl e
      | inr y =>
          match mapThrowing f rest with
          | inl e => inl e
          | inr ys => inr (y :: ys)
          end
      end
  end.

Definition topicReport (urlsResults : list Urls.row) (analyticsResults : list Row)
  : Exception + TopicReport.t :=
  match forEach topicStep analyticsResults
          {| TopicAcc.totalClicks := 0; TopicAcc.uniqueUsersSet := ∅;
             TopicAcc.clicksByDate := []; TopicAcc.urlsAnalytics := [] |} with
  | inl e => inl e
  | inr acc =>
      let clicksByDateArray := clicksByDateArrayOf (TopicAcc.clicksByDate acc) in
      match mapThrowing (urlEntryOf urlsResults (TopicAcc.urlsAnalytics acc))
              (JsObject.keys (TopicAcc.urlsAnalytics acc)) with
      | inl e => inl e
      | inr urlsAnalyticsArray =>
          inr {| TopicReport.totalClicks := TopicAcc.totalClicks acc;
                 TopicReport.uniqueUsers := size (TopicAcc.uniqueUsersSet acc);
                 TopicReport.clicksByDate := clicksByDateArray;
                 TopicReport.urls := urlsAnalyticsArray |}
      end
  end.

(** ** The route handlers *)

Inductive Body : Type :=
| ErrorBody (error : string)
| CreatedBody (shortUrl : string)
| AliasReportBody (report : AliasReport.t)
| TopicReportBody (report : TopicReport.t).

(** What the client gets: [res.status(s).json(b)], [res.redirect(url)],
    or nothing because the callback threw. *)
Inductive Response : Type :=
| Json (status : nat) (body : Body)
| Redirect (location : string)
| Uncaught (e : Exception).

(** A call of [console.error]. Its arguments are either strings, which
    print as one line ([Line]), or a label and an Error object
    ([LineWithError]): then Node prints the label and the inspection of
    the object, of which the message is only a part. *)
Inductive ConsoleLine : Type :=
| Line (text : string)
| LineWithError (label : string) (error : string).

Record Outcome := {
  response : Response;
  storage : Storage;
  console : list ConsoleLine;
}.

Definition reply (st : Storage) (r : Response) : Outcome :=
  {| response := r; storage := st; console := [] |}.

(** The named results of the exposed operations. *)
Definition ValidationError : Response := Json 400 (ErrorBody "longUrl is required").
Definition AliasConflict : Response := Json 400 (ErrorBody "Custom alias already in use").
Definition NotFound : Response := Json 404 (ErrorBody "Short URL not found").
Definition TopicNotFound : Response :=
  Json 404 (ErrorBody "No URLs found for the specified topic").

Record ShortenRequest := {
  longUrl : option string;
  customAlias : option string;
  topic : option string;
  protocol : string;
  host : string;
}.

(** [POST /shorten], behind its rate limiter; [generated] is what
    [shortid.generate()] returns if it is called. Of the 201 body only
    [shortUrl] is kept ([createdAt] is the time of the response). *)
Definition shorten (req : ShortenRequest) (generated : string) (st : Storage) : Outcome :=
  match truthy (longUrl req) with
  | None => reply st ValidationError
  | Some longUrl =>
      let shortUrl := default generated (truthy (customAlias req)) in
      match checkAliasQuery (customAlias req) st with
      | (QError _, st1) => reply st1 (Json 500 (ErrorBody "Database error"))
      | (QRows results, st1) =>
          if decide (0 < List.length results)%nat then reply st1 AliasConflict
          else
            match insertQuery
                    {| Urls.long_url := longUrl;
                       Urls.short_url := shortUrl;
                       Urls.custom_alias := truthy (customAlias req);
                       Urls.topic := truthy (topic req) |} st1 with
            | (QError _, st2) =>
                reply st2 (Json 500 (ErrorBody "Failed to create short URL"))
            | (QRows _, st2) =>
                reply st2
                  (Json 201 (CreatedBody (protocol req ++ "://" ++ host req ++ "/" ++ shortUrl)))
            end
      end
  end.

Record Geo := { country : string; region : string; city : string }.

Record RedirectRequest := {
  param_alias : string;
  header_user_agent : option string;
  ip : option string;
  remoteAddress : option string;
}.

(** The values bound to the insert of a redirect: the alias of the
    request, its user-agent header ([undefined] is stored as NULL),
    [req.ip || req.connection.remoteAddress || 'Unknown'], and the
    geolocation string of [geoip.lookup]. *)
Definition analyticsEvent (geoip_lookup : string -> option Geo) (now : Moment.Date)
  (req : RedirectRequest) : UrlAnalytics.row :=
  let userAgent := header_user_agent req in
  let ipAddress := default "Unknown" (or_else (ip req) (truthy (remoteAddress req))) in
  let geo :=
    default {| country := "Unknown"; region := "Unknown"; city := "Unknown" |}
      (geoip_lookup ipAddress) in
  let geolocation := city geo ++ ", " ++ region geo ++ ", " ++ country geo in
  {| UrlAnalytics.alias := param_alias req;
     UrlAnalytics.timestamp := now;
     UrlAnalytics.user_agent := userAgent;
     UrlAnalytics.ip_address := Some ipAddress;
     UrlAnalytics.geolocation := Some geolocation |}.

(** [GET /shorten/:alias]. The insert is issued and [res.redirect] is
    called right away; the callback of the insert only logs. *)
Definition redirect (geoip_lookup : string -> option Geo) (now : Moment.Date)
  (req : RedirectRequest) (st : Storage) : Outcome :=
  let alias := param_alias req in
  match findUrlQuery alias st with
  | (QError _, st1) => reply st1 (Json 500 (ErrorBody "Database error"))
  | (QRows [], st1) => reply st1 NotFound
  | (QRows (row :: _), st1) =>
      let longUrl := Urls.long_url row in
      let (inserted, st2) :=
        insertAnalyticsQuery (analyticsEvent geoip_lookup now req) st1 in
      {| response := Redirect longUrl;
         storage := st2;
         console :=
           match inserted with
           | QError message => [Line ("Error logging analytics: " ++ message)]
           | QRows _ => []
           end |}
  end.

(** [GET /analytics/:alias]. When the grouped query fails, the Error
    object itself is passed to [console.error]. *)
Definition getAliasReport (today : Moment.Date) (alias : string) (st : Storage) : Outcome :=
  match findUrlQuery alias st with
  | (QError _, st1) => reply st1 (Json 500 (ErrorBody "Database error"))
  | (QRows [], st1) => reply st1 NotFound
  | (QRows (_ :: _), st1) =>
      match analyticsQuery alias st1 with
      | (QError message, st2) =>
          {| response := Json 500 (ErrorBody "Error fetching analytics data");
             storage := st2;
             console := [LineWithError "Error fetching analytics data:" message] |}
      | (QRows analyticsResults, st2) =>
          match aliasReport today analyticsResults with
          | inl e => reply st2 (Uncaught e)
          | inr report => reply st2 (Json 200 (AliasReportBody report))
          end
      end
  end.

(** [GET /analytics/topic/:topic] *)
Definition getTopicReport (topic : string) (st : Storage) : Outcome :=
  match topicUrlsQuery topic st with
  | (QError _, st1) => reply st1 (Json 500 (ErrorBody "Database error"))
  | (QRows [], st1) => reply st1 TopicNotFound
  | (QRows ((_ :: _) as urlsResults), st1) =>
      let aliases := map Urls.short_url urlsResults in
      match topicAnalyticsQuery aliases st1 with
      | (QError _, st2) =>
          reply st2 (Json 500 (ErrorBody "Error fetching analytics data"))
      | (QRows analyticsResults, st2) =>
          match topicReport urlsResults analyticsResults with
          | inl e => reply st2 (Uncaught e)
          | inr report => reply st2 (Json 200 (TopicReportBody report))
          end
      end
  end.

(** ** Sequences of requests *)

Inductive Call : Type :=
| CallShorten (req : ShortenRequest) (generated : string)
| CallRedirect (now : Moment.Date) (req : RedirectRequest)
| CallAliasReport (today : Moment.Date) (alias : string)
| CallTopicReport (topic : string).

Definition serve (geoip_lookup : string -> option Geo) (c : Call) (st : Storage) : Outcome :=
  match c with
  | CallShorten req generated => shorten req generated st
  | CallRedirect now req => redirect geoip_lookup now req st
  | CallAliasReport today alias => getAliasReport today alias st
  | CallTopicReport topic => getTopicReport topic st
  end.

(** The storage states the service can be in: it starts with empty
    tables, any schedule of outages and any reading of pasted text, and
    changes by serving requests. *)
Inductive reachable (geoip_lookup : string -> option Geo) : Storage -> Prop :=
| reachable_start (schedule : list bool) (reading : string -> QueryResult Row) :
    reachable geoip_lookup
      {| urls := []; url_analytics := []; outages := schedule; pasted_sql := reading |}
| reachable_serve (c : Call) (st : Storage) :
    reachable geoip_lookup st ->
    reachable geoip_lookup (storage (serve geoip_lookup c st)).

(** ** Vocabulary of the statements *)

(** The number of distinct values in a list. *)
Definition distinct_count {A : Type} `{EqDecision A} (l : list A) : nat :=
  length (remove_dups l).

(** The bucket a tuple is accumulated into by the OS loop and by the
    device loop (for a tuple whose user agent is a string). *)
Definition osBucketOf (record : Row) : string :=
  osNameOf (toLowerCase (default "" (user_agent record))).

Definition deviceBucketOf (record : Row) : string :=
  deviceNameOf (toLowerCase (default "" (user_agent record))).

(** Every tuple has a string for its user agent. *)
Definition agents_are_strings (rows : list Row) : Prop :=
  Forall (fun record => is_Some (user_agent record)) rows.

(** The clicks of the tuples of one formatted date. *)
Definition clicks_on (date : string) (rows : list Row) : nat :=
  sum_list_with total_clicks
    (filter (fun record => Moment.format (click_date record) = date) rows).

(** The report of an alias nobody clicked. *)
Definition empty_report : AliasReport.t :=
  {| AliasReport.totalClicks := 0;
     AliasReport.uniqueUsers := 0;
     AliasReport.clicksByDate := [];
     AliasReport.osType := [];
     AliasReport.deviceType := [] |}.

(** The next [db.query] call is answered with rows. *)
Definition answered (st : Storage) : Prop := head (outages st) <> Some true.

(** What a bucket holds once the tuples [rows] have been accumulated into
    it: nothing if there are none, else their clicks and the set of their
    [ip_address] values. *)
Definition bucket_for (name : string) (rows : list Row) : option Bucket.t :=
  match rows with
  | [] => None
  | _ :: _ =>
      Some {| Bucket.name := name;
              Bucket.uniqueClicks := sum_list_with total_clicks rows;
              Bucket.uniqueUsers := list_to_set (map ip_address rows) |}
  end.

(** The next two [db.query] calls are answered with rows. *)
Definition answered_twice (st : Storage) : Prop :=
  answered st /\ answered (pop_outage st).2.

(** What [clicksByDate] holds for a formatted date once the loop has run
    over [rows]: nothing if no tuple has that date or the date is before
    [sevenDaysAgo], else the clicks of the tuples of that date. *)
Definition clicks_entry (sevenDaysAgo date : string) (rows : list Row) : option nat :=
  match filter (fun record => Moment.format (click_date record) = date) rows with
  | [] => None
  | _ :: _ => if geb date sevenDaysAgo then Some (clicks_on date rows) else None
  end.

(** The row [POST /shorten] inserts for a request with long URL
    [longUrl0]. *)
Definition created_row (req : ShortenRequest) (generated longUrl0 : string) : Urls.row :=
  {| Urls.long_url := longUrl0;
     Urls.short_url := default generated (truthy (customAlias req));
     Urls.custom_alias := truthy (customAlias req);
     Urls.topic := truthy (topic req) |}.

(** The invariant of table [urls]: tokens are unique, and a row with a
    custom alias has that alias as its token. *)
Definition urls_invariant (table : list Urls.row) : Prop :=
  NoDup (map Urls.short_url table)
  /\ forall u a, In u table -> Urls.custom_alias u = Some a -> Urls.short_url u = a.

(** What [urlsAnalytics] holds for an alias once its tuples [rows] have
    been accumulated. *)
Definition url_acc_for (rows : list Row) : option UrlAcc.t :=
  match rows with
  | [] => None
  | _ :: _ =>
      Some {| UrlAcc.totalClicks := sum_list_with total_clicks rows;
              UrlAcc.uniqueUsers := list_to_set (map ip_address rows) |}
  end.

(** No tuple carries an alias that is a name inherited from
    [Object.prototype]. *)
Definition no_inherited_alias (rows : list Row) : Prop :=
  Forall (fun record => ~ In (alias record) JsObject.prototype_keys) rows.

(** ** Sample data *)

(** The two tuples of the scenario of the specification, dated
    2024-01-01. *)
Definition scenario_rows : list Row :=
  [ {| alias := "abc"; click_date := 19723%Z; user_agent := Some "Mozilla Windows";
       total_clicks := 3; unique_users := 1; ip_address := Some "1.1.1.1" |};
    {| alias := "abc"; click_date := 19723%Z; user_agent := Some "Mozilla iPhone";
       total_clicks := 2; unique_users := 1; ip_address := Some "2.2.2.2" |} ].

(** 2024-01-03. *)
Definition scenario_today : Moment.Date := 19725%Z.

Definition no_geoip (ipAddress : string) : option Geo := None.

(** A collaborator that reads every pasted text as a syntax error. *)
Definition syntax_error (text : string) : QueryResult Row := QError "syntax error".

Definition empty_storage : Storage :=
  {| urls := []; url_analytics := []; outages := []; pasted_sql := syntax_error |}.

Definition abc_request : ShortenRequest :=
  {| longUrl := Some "http://x.com"; customAlias := Some "abc"; topic := Some "t";
     protocol := "http"; host := "localhost:3000" |}.

Definition abc_again_request : ShortenRequest :=
  {| longUrl := Some "http://y.com"; customAlias := Some "abc"; topic := None;
     protocol := "http"; host := "localhost:3000" |}.

(** The storage after [abc_request] has been served. *)
Definition abc_storage : Storage := storage (shorten abc_request "tok1" empty_storage).

Definition abc_visit : RedirectRequest :=
  {| param_alias := "abc"; header_user_agent := Some "Mozilla Windows";
     ip := Some "1.1.1.1"; remoteAddress := None |}.

(** [abc_storage] when the next lookup is answered and the query after
    it fails. *)
Definition abc_storage_insert_fails : Storage :=
  {| urls := urls abc_storage; url_analytics := []; outages := [false; true];
     pasted_sql := syntax_error |}.

(** ** Vocabulary of the further statements *)

(** The distinct elements of a list, in the order of their first
    occurrence. *)
Definition first_occurrences (l : list string) : list string :=
  fold_left (fun (seen : list string) k =>
               if decide (k ∈ seen) then seen else (seen ++ [k])%list) l [].

(** The stored events of an alias. *)
Definition events_of (a : string) (st : Storage) : list UrlAnalytics.row :=
  filter (fun e => UrlAnalytics.alias e = a) (url_analytics st).

(** The stored events of the tokens of a topic. *)
Definition events_of_topic (t : string) (st : Storage) : list UrlAnalytics.row :=
  filter (fun e => UrlAnalytics.alias e
                   ∈ map Urls.short_url
                       (filter (fun u => Urls.topic u = Some t) (urls st)))
    (url_analytics st).

(** The tokens of a topic are plain literals: none of them contains a
    quote or a backslash, so the pasted IN list is the list of the tokens. *)
Definition plain_tokens (t : string) (st : Storage) : Prop :=
  forall u, In u (urls st) -> Urls.topic u = Some t ->
            plain_literal (Urls.short_url u) = true.

(** The token [POST /shorten] stores for a request. *)
Definition token_of (req : ShortenRequest) (generated : string) : string :=
  default generated (truthy (customAlias req)).

(** The next [db.query] call fails. *)
Definition failing (st : Storage) : Prop := head (outages st) = Some true.

(** The next [db.query] call is answered and the one after it fails. *)
Definition failing_second (st : Storage) : Prop :=
  answered st /\ failing (pop_outage st).2.

(** A storage whose first query fails, and one whose second query fails. *)
Definition abc_storage_lookup_fails : Storage :=
  {| urls := urls abc_storage; url_analytics := []; outages := [true];
     pasted_sql := syntax_error |}.

Definition abc_visited_storage : Storage :=
  storage (redirect no_geoip 19723%Z abc_visit abc_storage).

Definition plain_request : ShortenRequest :=
  {| longUrl := Some "http://z.com"; customAlias := None; topic := None;
     protocol := "http"; host := "localhost:3000" |}.

(** Two tuples of two aliases of one topic, as the topic query groups
    them. *)
Definition topic_rows : list Row :=
  [ {| alias := "abc"; click_date := 19000%Z; user_agent := Some "Mozilla Windows";
       total_clicks := 3; unique_users := 2; ip_address := None |};
    {| alias := "xyz"; click_date := 19723%Z; user_agent := None;
       total_clicks := 2; unique_users := 1; ip_address := None |} ].

Definition topic_urls : list Urls.row :=
  [ {| Urls.long_url := "http://x.com"; Urls.short_url := "abc";
       Urls.custom_alias := Some "abc"; Urls.topic := Some "t" |};
    {| Urls.long_url := "http://y.com"; Urls.short_url := "xyz";
       Urls.custom_alias := None; Urls.topic := Some "t" |} ].

Definition firefox_android_row : Row :=
  {| alias := "abc"; click_date := 19723%Z;
     user_agent := Some "Mozilla/5.0 (Android 13; Mobile; rv:109.0) Gecko/119.0 Firefox/119.0";
     total_clicks := 1; unique_users := 1; ip_address := None |}.

(** * Properties *)

(** ** Strings *)

Section string_facts.

Lemma startsWith_spec s p :
  startsWith s p = true <-> exists post, s = p ++ post.
Proof.
  revert s. induction p as [|b p IH]; intros s.
  - destruct s; split; simpl; eauto.
  - destruct s as [|a s]; cbn [startsWith].
    + split; [discriminate | intros [post H]; discriminate].
    + destruct (Ascii.eqb_spec a b) as [->|Hne]; cbn [andb].
      * rewrite IH. split.
        -- intros [post ->]. eauto.
        -- intros [post [= ->]]. eauto.
      * split; [discriminate | intros [post [= H _]]; contradiction].
Qed.

Lemma includes_spec s p :
  includes s p = true <-> exists pre post, s = pre ++ p ++ post.
Proof.
  induction s as [|a s IH].
  - cbn [includes]. rewrite orb_false_r, startsWith_spec. split.
    + intros [post H]. exists "", post. exact H.
    + intros [pre [post H]]. destruct pre; [eauto | discriminate].
  - cbn [includes]. rewrite orb_true_iff, startsWith_spec, IH. split.
    + intros [[post H] | [pre [post H]]].
      * exists "", post. exact H.
      * exists (String a pre), post. simpl. now rewrite H.
    + intros [[|c pre] [post H]].
      * left. eauto.
      * right. injection H as -> H. eauto.
Qed.

Lemma toLowerCase_app a b :
  toLowerCase (a ++ b) = toLowerCase a ++ toLowerCase b.
Proof. induction a as [|c a IH]; simpl; [reflexivity | now rewrite IH]. Qed.

Lemma toLowerCase_split s a b :
  toLowerCase s = a ++ b ->
  exists a' b', s = a' ++ b' /\ toLowerCase a' = a /\ toLowerCase b' = b.
Proof.
  revert s. induction a as [|c a IH]; intros s H.
  - exists "", s. auto.
  - destruct s as [|d s]; [discriminate|].
    simpl in H. injection H as Hc H.
    destruct (IH _ H) as (a' & b' & -> & Ha & Hb).
    exists (String d a'), b'. simpl. rewrite Ha, Hc. auto.
Qed.

(** [includes] on the lower-cased agent is the case-insensitive
    substring test. *)
Lemma includes_lower_ci ua p :
  includes (toLowerCase ua) p = true <-> ci_contains ua p.
Proof.
  rewrite includes_spec. unfold ci_contains. split.
  - intros (pre & post & H).
    destruct (toLowerCase_split _ _ _ H) as (pre' & rest & -> & _ & Hrest).
    destruct (toLowerCase_split _ _ _ Hrest) as (mid & post' & -> & Hmid & _).
    eauto.
  - intros (pre & mid & post & -> & <-).
    exists (toLowerCase pre), (toLowerCase post).
    now rewrite !toLowerCase_app.
Qed.

End string_facts.

(** ** C3: classification of the user agent *)

(** C3. For every tuple whose user agent is a string, the OS loop and
    the device loop each update exactly the bucket named by the
    classification of that agent, and leave the dictionary otherwise as
    it was. The OS bucket is one of Windows, macOS, Linux, Android, iOS,
    Other and is the one the ordered table windows, mac, linux, android,
    (ios or iphone) selects, first match winning, Other by default; the
    device bucket is mobile or desktop, and is mobile exactly when the
    agent contains mobile, android or iphone; every test is the
    case-insensitive substring test. *)
Theorem C3_classification (record : Row) (ua : string) (typeMap : JsObject.t Bucket.t) :
  user_agent record = Some ua ->
  let bump name :=
    let data :=
      default {| Bucket.name := name; Bucket.uniqueClicks := 0; Bucket.uniqueUsers := ∅ |}
        (JsObject.get name typeMap) in
    JsObject.put name
      {| Bucket.name := Bucket.name data;
         Bucket.uniqueClicks := Bucket.uniqueClicks data + total_clicks record;
         Bucket.uniqueUsers := {[ ip_address record ]} ∪ Bucket.uniqueUsers data |}
      typeMap in
  (bucketStep osNameOf typeMap record = inr (bump (os_spec ua))
   /\ In (os_spec ua) os_buckets)
  /\ (exists device,
        bucketStep deviceNameOf typeMap record = inr (bump device)
        /\ In device device_buckets
        /\ (device = "mobile" <->
            ci_contains ua "mobile" \/ ci_contains ua "android" \/ ci_contains ua "iphone"))
  /\ (forall p, includes (toLowerCase ua) p = true <-> ci_contains ua p).
Proof.
  intros Hua bump.
  assert (Hos : osNameOf (toLowerCase ua) = os_spec ua).
  { unfold osNameOf, os_spec, os_table, first_match, existsb.
    repeat (destruct (includes (toLowerCase ua) _); simpl; try reflexivity). }
  split; [split|split].
  - unfold bucketStep. rewrite Hua. cbv zeta. now rewrite Hos.
  - rewrite <- Hos. unfold osNameOf, os_buckets.
    repeat (destruct (includes (toLowerCase ua) _); simpl; auto 10).
  - exists (deviceNameOf (toLowerCase ua)). split; [|split].
    + unfold bucketStep. now rewrite Hua.
    + unfold deviceNameOf, device_buckets.
      destruct (_ || _); simpl; auto.
    + rewrite <- !includes_lower_ci. unfold deviceNameOf.
      destruct (includes (toLowerCase ua) "mobile"),
               (includes (toLowerCase ua) "android"),
               (includes (toLowerCase ua) "iphone"); simpl;
        split; intros H; auto; try discriminate;
        destruct H as [H|[H|H]]; discriminate.
  - intros p. apply includes_lower_ci.
Qed.

(** ** Dictionaries *)

Open Scope list_scope.

Section jsobject_facts.
Context {V : Type}.
Implicit Types (o : JsObject.t V) (k : string) (v : V).

Lemma get_put_eq k v o : JsObject.get k (JsObject.put k v o) = Some v.
Proof.
  induction o as [|[k' v'] o IH]; simpl.
  - now rewrite String.eqb_refl.
  - destruct (String.eqb_spec k' k) as [->|Hne]; simpl.
    + now rewrite String.eqb_refl.
    + destruct (String.eqb_spec k' k); [contradiction | exact IH].
Qed.

Lemma get_put_ne k k' v o :
  k <> k' -> JsObject.get k' (JsObject.put k v o) = JsObject.get k' o.
Proof.
  intros Hne. induction o as [|[k0 v0] o IH]; simpl.
  - destruct (String.eqb_spec k k'); [contradiction | reflexivity].
  - destruct (String.eqb_spec k0 k) as [->|Hk0]; simpl.
    + destruct (String.eqb_spec k k'); [contradiction | reflexivity].
    + destruct (String.eqb_spec k0 k'); [reflexivity | exact IH].
Qed.

Lemma get_None_notin k o : JsObject.get k o = None <-> ~ In k (map fst o).
Proof.
  induction o as [|[k' v'] o IH]; simpl.
  - tauto.
  - destruct (String.eqb_spec k' k) as [->|Hne].
    + split; [discriminate | tauto].
    + rewrite IH. tauto.
Qed.

Lemma get_Some_in k v o : JsObject.get k o = Some v -> In (k, v) o.
Proof.
  induction o as [|[k' v'] o IH]; simpl; [discriminate|].
  destruct (String.eqb_spec k' k) as [->|Hne].
  - intros [= ->]. now left.
  - auto.
Qed.

Lemma in_get_Some k v o : NoDup (map fst o) -> In (k, v) o -> JsObject.get k o = Some v.
Proof.
  induction o as [|[k' v'] o IH]; simpl; [tauto|].
  intros Hnd [Heq|Hin].
  - injection Heq as -> ->. now rewrite String.eqb_refl.
  - apply NoDup_cons in Hnd as [Hnotin Hnd].
    destruct (String.eqb_spec k' k) as [->|Hne]; [|auto].
    exfalso. apply Hnotin, list_elem_of_In. apply in_map_iff. now exists (k, v).
Qed.

Lemma keys_put k v o :
  map fst (JsObject.put k v o)
  = match JsObject.get k o with
    | Some _ => map fst o
    | None => (map fst o ++ [k])%list
    end.
Proof.
  induction o as [|[k' v'] o IH]; simpl; [reflexivity|].
  destruct (String.eqb_spec k' k) as [->|Hne]; simpl; [reflexivity|].
  rewrite IH. now destruct (JsObject.get k o).
Qed.

Lemma NoDup_put k v o : NoDup (map fst o) -> NoDup (map fst (JsObject.put k v o)).
Proof.
  intros Hnd. rewrite keys_put.
  destruct (JsObject.get k o) eqn:Hget; [exact Hnd|].
  apply NoDup_app. repeat split; [exact Hnd | | apply NoDup_singleton].
  intros x Hx Hx'. apply list_elem_of_In in Hx.
  apply list_elem_of_singleton in Hx' as ->.
  now apply get_None_notin in Hget.
Qed.

(** Enumeration only reorders the own properties. *)
Lemma entries_Permutation o : JsObject.entries o ≡ₚ o.
Proof.
  unfold JsObject.entries. rewrite merge_sort_Permutation.
  apply filter_app_complement.
Qed.

Lemma in_entries e o : In e (JsObject.entries o) <-> In e o.
Proof. rewrite <- !list_elem_of_In. now rewrite entries_Permutation. Qed.

Lemma NoDup_keys o : NoDup (map fst o) -> NoDup (JsObject.keys o).
Proof.
  intros Hnd. unfold JsObject.keys.
  assert (Hp : map fst (JsObject.entries o) ≡ₚ map fst o)
    by apply Permutation_map, entries_Permutation.
  now rewrite Hp.
Qed.

Lemma in_keys k o : In k (JsObject.keys o) <-> In k (map fst o).
Proof.
  unfold JsObject.keys. rewrite !in_map_iff.
  split; intros (e & He & Hin); exists e; split; auto; now apply in_entries.
Qed.

Lemma in_values v o : In v (JsObject.values o) <-> In v (map snd o).
Proof.
  unfold JsObject.values. rewrite !in_map_iff.
  split; intros (e & He & Hin); exists e; split; auto; now apply in_entries.
Qed.

Lemma sum_values (f : V -> nat) o :
  sum_list_with f (JsObject.values o) = sum_list_with (fun e => f e.2) o.
Proof.
  unfold JsObject.values.
  rewrite <- (sum_list_with_Permutation_proper _ _ _ (entries_Permutation o)).
  generalize (JsObject.entries o). intros l.
  induction l as [|e l IH]; simpl; [reflexivity | now rewrite IH].
Qed.

(** Writing a key changes the sum over the values by the difference at
    that key. *)
Lemma sum_put (f : V -> nat) k v o :
  sum_list_with (fun e => f e.2) (JsObject.put k v o)
    + default 0 (f <$> JsObject.get k o)
  = sum_list_with (fun e => f e.2) o + f v.
Proof.
  induction o as [|[k' v'] o IH]; simpl; [lia|].
  destruct (String.eqb_spec k' k) as [->|Hne]; simpl; lia.
Qed.

End jsobject_facts.

(** The keys the handlers use for [clicksByDate], [osTypeMap] and
    [deviceTypeMap] are never names inherited from [Object.prototype]. *)
Lemma format_not_inherited (d : Moment.Date) :
  ~ In (Moment.format d) JsObject.prototype_keys.
Proof.
  assert (Hdash : includes (Moment.format d) "-" = true).
  { unfold Moment.format. destruct (Moment.civil d) as [[y m] dd].
    apply includes_spec. eexists _, _. reflexivity. }
  intros Hin. unfold JsObject.prototype_keys in Hin.
  repeat (destruct Hin as [Hin|Hin];
          [rewrite <- Hin in Hdash; vm_compute in Hdash; discriminate|]).
  destruct Hin.
Qed.

Lemma bucket_names_not_inherited (name : string) :
  In name (os_buckets ++ device_buckets) -> ~ In name JsObject.prototype_keys.
Proof.
  intros Hname Hin. unfold os_buckets, device_buckets in Hname. simpl in Hname.
  repeat (destruct Hname as [Hname|Hname];
          [subst name; vm_compute in Hin; intuition discriminate|]).
  destruct Hname.
Qed.

(** ** The accumulation loops *)

Lemma forEach_app {S : Type} (body : S -> Row -> Exception + S) rows1 rows2 acc :
  forEach body (rows1 ++ rows2) acc
  = match forEach body rows1 acc with
    | inl e => inl e
    | inr acc' => forEach body rows2 acc'
    end.
Proof.
  revert acc. induction rows1 as [|r rows1 IH]; intros acc; simpl; [reflexivity|].
  destruct (body acc r); [reflexivity | apply IH].
Qed.

Lemma agents_are_strings_app rows1 rows2 :
  agents_are_strings (rows1 ++ rows2)
  <-> agents_are_strings rows1 /\ agents_are_strings rows2.
Proof. apply Forall_app. Qed.

Lemma totalClicksOf_sum rows : totalClicksOf rows = sum_list_with total_clicks rows.
Proof.
  unfold totalClicksOf.
  assert (H : forall n, fold_left (fun sum record => sum + total_clicks record) rows n
                        = n + sum_list_with total_clicks rows).
  { induction rows as [|r rows IH]; intros n; simpl; [lia|]. rewrite IH. lia. }
  apply H.
Qed.

Lemma size_list_to_set_distinct {A : Type} `{Countable A} (l : list A) :
  size (list_to_set l : gset A) = distinct_count l.
Proof.
  unfold distinct_count.
  rewrite <- (size_list_to_set (C := gset A) (remove_dups l))
    by apply NoDup_remove_dups.
  f_equal. apply set_eq. intros x.
  now rewrite !elem_of_list_to_set, elem_of_remove_dups.
Qed.

Lemma filter_snoc {A : Type} (P : A -> Prop) `{forall x, Decision (P x)} (l : list A) x :
  filter P (l ++ [x]) = (filter P l ++ if decide (P x) then [x] else [])%list.
Proof.
  rewrite filter_app. reflexivity.
Qed.

Section bucket_loop.
Variable classify : string -> string.

Let bucketOf (record : Row) : string :=
  classify (toLowerCase (default "" (user_agent record))).

(** The state of a type map after the loop has run over [rows]: its
    keys are distinct, each key holds the bucket of the tuples
    classified under it, and the clicks of all buckets add up to the
    clicks of all tuples. *)
Lemma bucket_loop_state rows :
  agents_are_strings rows ->
  exists typeMap,
    forEach (bucketStep classify) rows [] = inr typeMap
    /\ NoDup (map fst typeMap)
    /\ (forall name,
          JsObject.get name typeMap
          = bucket_for name (filter (fun record => bucketOf record = name) rows))
    /\ sum_list_with (fun e => Bucket.uniqueClicks e.2) typeMap
       = sum_list_with total_clicks rows.
Proof.
  induction rows as [|r rows IH] using rev_ind; intros Hstr.
  - exists []. repeat split; simpl; auto. constructor.
  - apply agents_are_strings_app in Hstr as [Hrows Hr].
    destruct (IH Hrows) as (m & Hrun & Hnd & Hget & Hsum).
    apply Forall_singleton in Hr as [ua Hua].
    rewrite forEach_app, Hrun. simpl. unfold bucketStep. rewrite Hua.
    set (k := classify (toLowerCase ua)).
    assert (Hk : bucketOf r = k) by (unfold bucketOf; now rewrite Hua).
    eexists. split; [reflexivity|]. split; [now apply NoDup_put|]. split.
    + intros name. rewrite filter_snoc.
      destruct (decide (k = name)) as [<-|Hne].
      * rewrite get_put_eq, Hget. rewrite decide_True by exact Hk.
        destruct (filter _ rows) as [|a l]; simpl.
        -- f_equal. f_equal; try reflexivity; simpl; lia.
        -- f_equal. f_equal.
           ++ rewrite sum_list_with_app. simpl. lia.
           ++ rewrite map_app. simpl.
              change (ip_address a :: map ip_address l ++ [ip_address r])%list
                with (map ip_address [a] ++ (map ip_address l ++ [ip_address r]))%list.
              rewrite !list_to_set_app_L. simpl.
              apply set_eq. intros x.
              rewrite !elem_of_union, !elem_of_singleton, elem_of_empty. tauto.
      * rewrite get_put_ne by exact Hne. rewrite Hget.
        rewrite decide_False by (rewrite Hk; exact Hne).
        now rewrite app_nil_r.
    + rewrite sum_list_with_app. simpl.
      match goal with
      | |- sum_list_with ?f (JsObject.put k ?v m) = _ =>
          pose proof (sum_put (fun b => Bucket.uniqueClicks b) k v m) as Hput
      end.
      simpl in Hput. rewrite <- Hsum.
      destruct (JsObject.get k m); simpl in Hput |- *; lia.
Qed.

Lemma bucket_loop_throws rows acc :
  Exists (fun record => user_agent record = None) rows ->
  forEach (bucketStep classify) rows acc
  = inl (TypeError "Cannot read properties of null (reading 'toLowerCase')").
Proof.
  intros Hex. revert acc. induction rows as [|r rows IH]; intros acc.
  - inversion Hex.
  - simpl. unfold bucketStep at 1.
    destruct (user_agent r) as [ua|] eqn:Hua; [|reflexivity].
    apply IH. inversion Hex; subst; [congruence | assumption].
Qed.

(** An entry of the enumerated map is the bucket of its own name. *)
Lemma bucket_loop_values rows typeMap data :
  agents_are_strings rows ->
  forEach (bucketStep classify) rows [] = inr typeMap ->
  In data (JsObject.values typeMap) ->
  bucket_for (Bucket.name data)
    (filter (fun record => bucketOf record = Bucket.name data) rows) = Some data.
Proof.
  intros Hstr Hrun Hin.
  destruct (bucket_loop_state rows Hstr) as (m & Hrun' & Hnd & Hget & _).
  rewrite Hrun in Hrun'. injection Hrun' as <-.
  apply (proj1 (in_values data typeMap)) in Hin.
  apply in_map_iff in Hin as ([k d] & Hd & Hin). simpl in Hd. subst d.
  apply in_get_Some in Hin; [|exact Hnd].
  rewrite Hget in Hin.
  assert (Bucket.name data = k) as ->; [|exact Hin].
  destruct (filter _ rows); simpl in Hin; [discriminate|].
  now injection Hin as <-.
Qed.

End bucket_loop.

(** ** The storage collaborator *)

Lemma pop_outage_tables st :
  urls (pop_outage st).2 = urls st
  /\ url_analytics (pop_outage st).2 = url_analytics st.
Proof. unfold pop_outage. destruct (outages st); simpl; auto. Qed.

Lemma pop_outage_outages st : outages (pop_outage st).2 = tail (outages st).
Proof.
  unfold pop_outage. destruct (outages st) eqn:E; simpl; [now rewrite E | reflexivity].
Qed.

Lemma pop_outage_pasted st : pasted_sql (pop_outage st).2 = pasted_sql st.
Proof. unfold pop_outage. destruct (outages st); reflexivity. Qed.

Lemma pop_outage_answered st : answered st <-> (pop_outage st).1 = false.
Proof.
  unfold answered, pop_outage. destruct (outages st) as [|[] rest]; simpl.
  - split; [reflexivity | discriminate].
  - split; [intros H; now contradiction H | discriminate].
  - split; [reflexivity | discriminate].
Qed.

(** A SELECT either fails or returns the rows computed from the tables;
    either way only the outage schedule moves. *)
Lemma db_select_unfold {A : Type} (rows : Storage -> list A) st :
  db_select rows st
  = (if (pop_outage st).1 then QError "connection lost"
     else QRows (rows (pop_outage st).2),
     (pop_outage st).2).
Proof.
  unfold db_select. destruct (pop_outage st) as [[] st']; reflexivity.
Qed.

Lemma db_select_answered {A : Type} (rows : Storage -> list A) st :
  answered st ->
  db_select rows st = (QRows (rows (pop_outage st).2), (pop_outage st).2).
Proof.
  intros H. rewrite db_select_unfold.
  apply pop_outage_answered in H. now rewrite H.
Qed.

(** The grouped query of the topic report moves the outage schedule like
    any other query, whatever the pasted tokens are. *)
Lemma topicAnalyticsQuery_storage aliases st :
  (topicAnalyticsQuery aliases st).2 = (pop_outage st).2.
Proof.
  unfold topicAnalyticsQuery. destruct (pop_outage st) as [[] st']; simpl;
    [reflexivity|]. now destruct (forallb plain_literal aliases).
Qed.

Lemma topicAnalyticsQuery_down aliases st :
  (pop_outage st).1 = true ->
  topicAnalyticsQuery aliases st = (QError "connection lost", (pop_outage st).2).
Proof.
  unfold topicAnalyticsQuery. destruct (pop_outage st) as [[] st']; simpl;
    [reflexivity | discriminate].
Qed.

(** With plain tokens it is a SELECT over the rows of the listed tokens. *)
Lemma topicAnalyticsQuery_plain aliases st :
  forallb plain_literal aliases = true ->
  topicAnalyticsQuery aliases st
  = db_select
      (fun st' =>
         omap select_group
           (group_by (fun e => (UrlAnalytics.alias e, UrlAnalytics.timestamp e))
              (filter (fun e => UrlAnalytics.alias e ∈ aliases) (url_analytics st'))))
      st.
Proof.
  intros Hplain. unfold topicAnalyticsQuery, db_select.
  destruct (pop_outage st) as [[] st']; [reflexivity|]. now rewrite Hplain.
Qed.

Lemma findUrlQuery_answered a st :
  answered st ->
  findUrlQuery a st
  = (QRows (take 1 (filter (matches_alias a) (urls st))), (pop_outage st).2).
Proof.
  intros H. unfold findUrlQuery. rewrite db_select_answered by exact H.
  now rewrite (proj1 (pop_outage_tables st)).
Qed.

Lemma take1_filter_nil {A : Type} (P : A -> Prop) `{forall x, Decision (P x)} l :
  take 1 (filter P l) = [] <-> forall x, x ∈ l -> ~ P x.
Proof.
  split.
  - intros Hnil x Hx HP.
    assert (Hin : x ∈ filter P l) by (apply list_elem_of_filter; auto).
    destruct (filter P l); [inversion Hin | discriminate].
  - intros Hall. destruct (filter P l) as [|y l'] eqn:Hf; [reflexivity|].
    exfalso. assert (Hy : y ∈ filter P l) by (rewrite Hf; left).
    apply list_elem_of_filter in Hy as [HP Hy]. exact (Hall y Hy HP).
Qed.

(** Every event falls in a group of the GROUP BY, together with events of
    the same key only. *)
Lemma group_by_member {K : Type} `{EqDecision K} (key : UrlAnalytics.row -> K) events e :
  e ∈ events ->
  exists g, g ∈ group_by key events /\ e ∈ g /\ forall x, x ∈ g -> key x = key e.
Proof.
  intros He. exists (filter (fun x => key x = key e) events). repeat split.
  - unfold group_by. apply list_elem_of_In, in_map_iff.
    exists (key e). split; [reflexivity|].
    apply list_elem_of_In, elem_of_remove_dups, list_elem_of_In, in_map. 
    now apply list_elem_of_In.
  - apply list_elem_of_filter. auto.
  - intros x Hx. now apply list_elem_of_filter in Hx as [Hx _].
Qed.

Lemma group_by_nil {K : Type} `{EqDecision K} (key : UrlAnalytics.row -> K) :
  group_by key [] = [].
Proof. reflexivity. Qed.

(** An event stored without user agent shows up as a tuple without user
    agent in the grouped result for its alias. *)
Lemma analyticsQuery_null_agent a st e :
  answered st ->
  e ∈ url_analytics st ->
  UrlAnalytics.alias e = a ->
  UrlAnalytics.user_agent e = None ->
  exists rows,
    analyticsQuery a st = (QRows rows, (pop_outage st).2)
    /\ Exists (fun record => user_agent record = None) rows.
Proof.
  intros Hans He Ha Hua. unfold analyticsQuery.
  rewrite db_select_answered by exact Hans.
  eexists. split; [reflexivity|].
  rewrite (proj2 (pop_outage_tables st)).
  set (key := fun x => (UrlAnalytics.alias x, UrlAnalytics.timestamp x,
                        UrlAnalytics.user_agent x)).
  assert (Hin : e ∈ filter (fun x => UrlAnalytics.alias x = a) (url_analytics st))
    by (apply list_elem_of_filter; auto).
  destruct (group_by_member key _ e Hin) as (g & Hg & Heg & Hkey).
  destruct g as [|x g]; [inversion Heg|].
  apply Exists_exists. eexists. split.
  - apply list_elem_of_omap. exists (x :: g). split; [exact Hg | reflexivity].
  - simpl. assert (Hx : key x = key e) by (apply Hkey; left).
    unfold key in Hx. injection Hx as _ _ Hx. now rewrite Hx.
Qed.

Lemma analyticsQuery_no_events a st :
  answered st ->
  (forall e, e ∈ url_analytics st -> UrlAnalytics.alias e <> a) ->
  analyticsQuery a st = (QRows [], (pop_outage st).2).
Proof.
  intros Hans Hnone. unfold analyticsQuery.
  rewrite db_select_answered by exact Hans.
  rewrite (proj2 (pop_outage_tables st)).
  assert (Hnil : filter (fun e => UrlAnalytics.alias e = a) (url_analytics st) = []).
  { destruct (filter _ _) as [|y l] eqn:Hf; [reflexivity|]. exfalso.
    assert (Hy : y ∈ filter (fun e => UrlAnalytics.alias e = a) (url_analytics st))
      by (rewrite Hf; left).
    apply list_elem_of_filter in Hy as [Hya Hy]. exact (Hnone y Hy Hya). }
  now rewrite Hnil.
Qed.

(** ** The redirect handler *)

(** The insert of an event either fails and leaves the tables alone, or
    appends the event. *)
Lemma insertAnalyticsQuery_cases e st :
  let (inserted, st') := insertAnalyticsQuery e st in
  urls st' = urls st
  /\ outages st' = tail (outages st)
  /\ match inserted with
     | QError _ => url_analytics st' = url_analytics st
     | QRows _ => url_analytics st' = url_analytics st ++ [e]
     end.
Proof.
  unfold insertAnalyticsQuery.
  pose proof (pop_outage_tables st) as [Hu Ha].
  pose proof (pop_outage_outages st) as Ho.
  destruct (pop_outage st) as [[] st']; simpl in *; [repeat split; assumption|].
  destruct (decide _); simpl; repeat split; congruence.
Qed.

(** What a redirect that found the alias does. *)
Lemma redirect_found geoip now req st row rest st1 :
  findUrlQuery (param_alias req) st = (QRows (row :: rest), st1) ->
  let out := redirect geoip now req st in
  let event := analyticsEvent geoip now req in
  response out = Redirect (Urls.long_url row)
  /\ urls (storage out) = urls st
  /\ match insertAnalyticsQuery event st1 with
     | (QError message, _) =>
         console out = [Line ("Error logging analytics: " ++ message)%string]
         /\ url_analytics (storage out) = url_analytics st
     | (QRows _, _) =>
         console out = []
         /\ url_analytics (storage out) = url_analytics st ++ [event]
     end.
Proof.
  intros Hfind. cbv zeta. unfold redirect. rewrite Hfind.
  assert (Hst1 : urls st1 = urls st /\ url_analytics st1 = url_analytics st).
  { unfold findUrlQuery in Hfind. rewrite db_select_unfold in Hfind.
    injection Hfind as _ <-. apply pop_outage_tables. }
  destruct Hst1 as [Hu Ha].
  pose proof (insertAnalyticsQuery_cases (analyticsEvent geoip now req) st1) as Hins.
  destruct (insertAnalyticsQuery _ st1) as [inserted st2].
  destruct Hins as (Hu2 & _ & Hev). simpl.
  destruct inserted; simpl; rewrite Hu2, Hev, Hu, Ha; auto.
Qed.

(** A redirect response is only ever sent for an alias that was found. *)
Lemma redirect_response_inv geoip now req st location :
  response (redirect geoip now req st) = Redirect location ->
  exists row rest,
    findUrlQuery (param_alias req) st = (QRows (row :: rest), (pop_outage st).2).
Proof.
  unfold redirect.
  assert (Hsnd : (findUrlQuery (param_alias req) st).2 = (pop_outage st).2)
    by (unfold findUrlQuery; now rewrite db_select_unfold).
  destruct (findUrlQuery (param_alias req) st) as [[msg|[|row rest]] st1];
    simpl in *; try discriminate.
  intros _. subst st1. eauto.
Qed.

(** ** The alias report *)

(** With string user agents the callback runs to the end, and its report
    is assembled from the five independent computations. *)
Lemma aliasReport_runs today rows :
  agents_are_strings rows ->
  exists osTypeMap deviceTypeMap,
    forEach (bucketStep osNameOf) rows [] = inr osTypeMap
    /\ forEach (bucketStep deviceNameOf) rows [] = inr deviceTypeMap
    /\ aliasReport today rows
       = inr {| AliasReport.totalClicks := totalClicksOf rows;
                AliasReport.uniqueUsers := uniqueUsersOf rows;
                AliasReport.clicksByDate :=
                  clicksByDateArrayOf (clicksByDateOf today rows);
                AliasReport.osType := osTypeArrayOf osTypeMap;
                AliasReport.deviceType := deviceTypeArrayOf deviceTypeMap |}.
Proof.
  intros Hstr.
  destruct (bucket_loop_state osNameOf rows Hstr) as (osm & Hos & _).
  destruct (bucket_loop_state deviceNameOf rows Hstr) as (dvm & Hdv & _).
  exists osm, dvm. repeat split; auto.
  unfold aliasReport, osTypeMapOf, deviceTypeMapOf. now rewrite Hos, Hdv.
Qed.


Lemma aliasReport_throws today rows :
  Exists (fun record => user_agent record = None) rows ->
  aliasReport today rows
  = inl (TypeError "Cannot read properties of null (reading 'toLowerCase')").
Proof.
  intros Hex. unfold aliasReport, osTypeMapOf.
  now rewrite (bucket_loop_throws osNameOf rows [] Hex).
Qed.

Lemma findUrlQuery_rows_inv a st rows st1 :
  findUrlQuery a st = (QRows rows, st1) ->
  rows = take 1 (filter (matches_alias a) (urls st))
  /\ st1 = (pop_outage st).2 /\ answered st.
Proof.
  unfold findUrlQuery. rewrite db_select_unfold. intros Hq.
  destruct (pop_outage st).1 eqn:Hdown; [discriminate|].
  injection Hq as <- <-. rewrite (proj1 (pop_outage_tables st)).
  repeat split. now apply pop_outage_answered.
Qed.

Lemma getAliasReport_found today a st row rest st1 rows st2 :
  findUrlQuery a st = (QRows (row :: rest), st1) ->
  analyticsQuery a st1 = (QRows rows, st2) ->
  getAliasReport today a st
  = reply st2 match aliasReport today rows with
              | inl e => Uncaught e
              | inr report => Json 200 (AliasReportBody report)
              end.
Proof.
  intros Hfind Hrows. unfold getAliasReport. rewrite Hfind, Hrows.
  now destruct (aliasReport today rows).
Qed.

(** The recorder can store an event without user agent, and the report of
    that alias then throws. *)
Lemma recorded_null_agent_throws geoip now req st today location :
  header_user_agent req = None ->
  response (redirect geoip now req st) = Redirect location ->
  console (redirect geoip now req st) = [] ->
  answered_twice (storage (redirect geoip now req st)) ->
  response (getAliasReport today (param_alias req) (storage (redirect geoip now req st)))
  = Uncaught (TypeError "Cannot read properties of null (reading 'toLowerCase')").
Proof.
  intros Hua Hresp Hcons [Hans1 Hans2].
  destruct (redirect_response_inv _ _ _ _ _ Hresp) as (row & rest & Hfind).
  pose proof (redirect_found geoip now req st _ _ _ Hfind) as (_ & Hurls & Hins).
  destruct (insertAnalyticsQuery _ _) as [[message|results] st2];
    destruct Hins as [Hc Hev]; [rewrite Hc in Hcons; discriminate|].
  set (st' := storage (redirect geoip now req st)) in *.
  apply findUrlQuery_rows_inv in Hfind as (Hrows & _ & _).
  pose proof (findUrlQuery_answered (param_alias req) st' Hans1) as Hfind'.
  rewrite Hurls, <- Hrows in Hfind'.
  destruct (analyticsQuery_null_agent (param_alias req) (pop_outage st').2
              (analyticsEvent geoip now req) Hans2) as (rows & Hq & Hex).
  - rewrite (proj2 (pop_outage_tables st')), Hev.
    apply list_elem_of_In, in_app_iff. right. now left.
  - reflexivity.
  - exact Hua.
  - rewrite (getAliasReport_found _ _ _ _ _ _ _ _ Hfind' Hq).
    now rewrite (aliasReport_throws today rows Hex).
Qed.

(** C10. The aggregation of an alias report runs to a report exactly on
    the inputs whose tuples all carry a string (possibly empty) as user
    agent; on an input with a tuple whose user agent is null it throws a
    TypeError instead of classifying that tuple as Other/desktop. The
    recorder produces such tuples: after a redirect that carried no
    user-agent header and whose event was stored, the alias report of
    that alias throws as soon as storage answers. *)
Theorem C10_null_user_agent_throws (today : Moment.Date) (rows : list Row) :
  (agents_are_strings rows <-> exists report, aliasReport today rows = inr report)
  /\ (Exists (fun record => user_agent record = None) rows ->
      aliasReport today rows
      = inl (TypeError "Cannot read properties of null (reading 'toLowerCase')"))
  /\ (forall geoip now req st location,
        header_user_agent req = None ->
        response (redirect geoip now req st) = Redirect location ->
        console (redirect geoip now req st) = [] ->
        answered_twice (storage (redirect geoip now req st)) ->
        response (getAliasReport today (param_alias req)
                    (storage (redirect geoip now req st)))
        = Uncaught (TypeError "Cannot read properties of null (reading 'toLowerCase')")).
Proof.
  split; [split|split].
  - intros Hstr. destruct (aliasReport_runs today rows Hstr) as (? & ? & _ & _ & ->).
    eauto.
  - intros [report Hrun].
    destruct (decide (agents_are_strings rows)) as [Hstr|Hnot]; [exact Hstr|].
    exfalso. apply not_Forall_Exists in Hnot; [|apply _].
    rewrite aliasReport_throws in Hrun; [discriminate|].
    eapply Exists_impl; [exact Hnot|]. simpl. intros r Hr.
    destruct (user_agent r); [|reflexivity]. exfalso. apply Hr. eauto.
  - apply aliasReport_throws.
  - intros. eapply recorded_null_agent_throws; eauto.
Qed.

Lemma sum_list_with_map {A B : Type} (f : B -> nat) (g : A -> B) l :
  sum_list_with f (map g l) = sum_list_with (fun x => f (g x)) l.
Proof. induction l as [|x l IH]; simpl; [reflexivity | now rewrite IH]. Qed.

(** After a loop, every bucket is stored under its own name, and every
    tuple has its bucket in the map. *)
Lemma bucket_loop_names classify rows typeMap :
  agents_are_strings rows ->
  forEach (bucketStep classify) rows [] = inr typeMap ->
  NoDup (map Bucket.name (JsObject.values typeMap))
  /\ forall record,
       In record rows ->
       In (classify (toLowerCase (default "" (user_agent record))))
          (map Bucket.name (JsObject.values typeMap)).
Proof.
  intros Hstr Hrun.
  destruct (bucket_loop_state classify rows Hstr) as (m & Hrun' & Hnd & Hget & _).
  rewrite Hrun in Hrun'. injection Hrun' as <-.
  assert (Hname : forall e, In e (JsObject.entries typeMap) -> Bucket.name e.2 = e.1).
  { intros [k d] Hin. apply (proj1 (in_entries _ _)) in Hin. apply in_get_Some in Hin; [|exact Hnd].
    rewrite Hget in Hin. destruct (filter _ rows); [discriminate|].
    simpl in Hin. now injection Hin as <-. }
  assert (Heq : map Bucket.name (JsObject.values typeMap) = JsObject.keys typeMap).
  { unfold JsObject.values, JsObject.keys. rewrite map_map.
    apply map_ext_in. exact Hname. }
  rewrite Heq. split; [now apply NoDup_keys|].
  intros record Hin. apply (proj2 (in_keys _ _)).
  set (k := classify _).
  destruct (JsObject.get k typeMap) as [d|] eqn:Hk.
  - apply get_Some_in in Hk. apply in_map_iff. now exists (k, d).
  - exfalso. rewrite Hget in Hk.
    assert (Hf : record ∈ filter
                   (fun r => classify (toLowerCase (default "" (user_agent r))) = k) rows).
    { apply list_elem_of_filter. split; [reflexivity | now apply list_elem_of_In]. }
    destruct (filter _ rows); [inversion Hf | discriminate].
Qed.

(** ** C5: the OS buckets partition the clicks *)

(** C5. For every input whose tuples carry string user agents, the
    report exists, its totalClicks is the sum of total_clicks over all
    tuples, and the uniqueClicks of its osType buckets add up to
    totalClicks; the buckets have distinct names and every tuple belongs
    to the one bucket named by its classification. *)
Theorem C5_os_clicks_sum_to_total (today : Moment.Date) (rows : list Row) :
  agents_are_strings rows ->
  exists report,
    aliasReport today rows = inr report
    /\ AliasReport.totalClicks report = sum_list_with total_clicks rows
    /\ sum_list_with OsEntry.uniqueClicks (AliasReport.osType report)
       = AliasReport.totalClicks report
    /\ NoDup (map OsEntry.osName (AliasReport.osType report))
    /\ forall record,
         In record rows ->
         In (osBucketOf record) (map OsEntry.osName (AliasReport.osType report)).
Proof.
  intros Hstr.
  destruct (aliasReport_runs today rows Hstr) as (osm & dvm & Hos & _ & ->).
  eexists. split; [reflexivity|]. cbn [AliasReport.totalClicks AliasReport.osType].
  destruct (bucket_loop_state osNameOf rows Hstr) as (m & Hrun & _ & _ & Hsum).
  rewrite Hos in Hrun. injection Hrun as <-.
  destruct (bucket_loop_names osNameOf rows osm Hstr Hos) as [Hnd Hall].
  assert (Hnames : map OsEntry.osName (osTypeArrayOf osm)
                   = map Bucket.name (JsObject.values osm)).
  { unfold osTypeArrayOf. rewrite map_map. reflexivity. }
  rewrite Hnames. repeat split.
  - apply totalClicksOf_sum.
  - unfold osTypeArrayOf. rewrite sum_list_with_map.
    change (sum_list_with Bucket.uniqueClicks (JsObject.values osm) = totalClicksOf rows).
    rewrite (sum_values Bucket.uniqueClicks osm), Hsum.
    symmetry. apply totalClicksOf_sum.
  - exact Hnd.
  - exact Hall.
Qed.

(** ** C1: uniqueUsers counts the ip_address values of the tuples *)


(** ** C4: the date series *)

Lemma geb_not_ltb a b : geb a b = true -> String.ltb a b = false.
Proof.
  unfold geb, String.leb, String.ltb. rewrite (String.compare_antisym a b).
  destruct (String.compare b a); simpl; congruence.
Qed.

Lemma geb_refl a : geb a a = true.
Proof. unfold geb. destruct (String.leb_total a a); assumption. Qed.

(** The state of [clicksByDate] after the loop has run over [rows]. *)
Lemma clicksByDate_loop_state sevenDaysAgo rows :
  let clicksByDate := fold_left (clicksByDateStep sevenDaysAgo) rows [] in
  NoDup (map fst clicksByDate)
  /\ forall date, JsObject.get date clicksByDate = clicks_entry sevenDaysAgo date rows.
Proof.
  cbv zeta. induction rows as [|r rows [Hnd Hget]] using rev_ind.
  - split; [constructor | reflexivity].
  - rewrite fold_left_app. cbn [fold_left].
    set (o := fold_left (clicksByDateStep sevenDaysAgo) rows []) in *.
    unfold clicksByDateStep.
    set (d := Moment.format (click_date r)).
    assert (Hsnoc : forall date,
      clicks_entry sevenDaysAgo date (rows ++ [r])
      = if decide (d = date) then
          if geb d sevenDaysAgo
          then Some (default 0 (clicks_entry sevenDaysAgo date rows) + total_clicks r)
          else None
        else clicks_entry sevenDaysAgo date rows).
    { intros date. unfold clicks_entry, clicks_on. rewrite filter_snoc.
      fold d. destruct (decide (d = date)) as [<-|Hne].
      - destruct (filter _ rows) as [|a l]; simpl.
        + destruct (geb d sevenDaysAgo); [f_equal; lia | reflexivity].
        + destruct (geb d sevenDaysAgo); [|reflexivity].
          f_equal. simpl. rewrite sum_list_with_app. simpl. lia.
      - rewrite app_nil_r. reflexivity. }
    destruct (geb d sevenDaysAgo) eqn:Hgeb.
    + split; [now apply NoDup_put|].
      intros date. rewrite Hsnoc.
      destruct (decide (d = date)) as [<-|Hne].
      * now rewrite get_put_eq, Hget.
      * now rewrite get_put_ne.
    + split; [exact Hnd|].
      intros date. rewrite Hsnoc, Hget.
      destruct (decide (d = date)) as [<-|Hne]; [|reflexivity].
      unfold clicks_entry. rewrite Hgeb. now destruct (filter _ rows).
Qed.

Lemma in_clicksByDateArrayOf e clicksByDate :
  In e (clicksByDateArrayOf clicksByDate)
  <-> In (ClickCount.date e, ClickCount.clickCount e) clicksByDate.
Proof.
  unfold clicksByDateArrayOf. rewrite in_map_iff. split.
  - intros ([d c] & <- & Hin). simpl. now apply (proj1 (in_entries _ _)).
  - intros Hin. exists (ClickCount.date e, ClickCount.clickCount e).
    split; [now destruct e | now apply (proj2 (in_entries _ _))].
Qed.

(** C4. For every input whose tuples carry string user agents and every
    computation date, the report exists and its clicksByDate has one
    entry per date; every entry has a date that is at least the formatted
    date of seven days before today in the lexicographic order of strings
    (so none is earlier), is the date of some tuple, and carries as
    clickCount the sum of total_clicks of the tuples of that date; and
    every tuple whose formatted date is at least that bound has its date
    in the series, the bound itself and any later date included. *)
Theorem C4_clicks_by_date (today : Moment.Date) (rows : list Row) :
  agents_are_strings rows ->
  let sevenDaysAgo := Moment.format (Moment.subtract_days 7 today) in
  exists report,
    aliasReport today rows = inr report
    /\ NoDup (map ClickCount.date (AliasReport.clicksByDate report))
    /\ (forall e,
          In e (AliasReport.clicksByDate report) ->
          geb (ClickCount.date e) sevenDaysAgo = true
          /\ String.ltb (ClickCount.date e) sevenDaysAgo = false
          /\ ClickCount.clickCount e = clicks_on (ClickCount.date e) rows
          /\ exists record,
               In record rows
               /\ Moment.format (click_date record) = ClickCount.date e)
    /\ (forall record,
          In record rows ->
          geb (Moment.format (click_date record)) sevenDaysAgo = true ->
          In {| ClickCount.date := Moment.format (click_date record);
                ClickCount.clickCount :=
                  clicks_on (Moment.format (click_date record)) rows |}
             (AliasReport.clicksByDate report))
    /\ (forall record,
          In record rows ->
          click_date record = Moment.subtract_days 7 today ->
          In (Moment.format (click_date record))
             (map ClickCount.date (AliasReport.clicksByDate report))).
Proof.
  intros Hstr sevenDaysAgo.
  destruct (aliasReport_runs today rows Hstr) as (osm & dvm & _ & _ & ->).
  eexists. split; [reflexivity|]. cbn [AliasReport.clicksByDate].
  unfold clicksByDateOf. fold sevenDaysAgo.
  destruct (clicksByDate_loop_state sevenDaysAgo rows) as [Hnd Hget].
  set (o := fold_left (clicksByDateStep sevenDaysAgo) rows []) in *.
  assert (Hcomplete : forall record,
    In record rows ->
    geb (Moment.format (click_date record)) sevenDaysAgo = true ->
    In {| ClickCount.date := Moment.format (click_date record);
          ClickCount.clickCount := clicks_on (Moment.format (click_date record)) rows |}
       (clicksByDateArrayOf o)).
  { intros record Hin Hgeb. apply in_clicksByDateArrayOf.
    cbn [ClickCount.date ClickCount.clickCount].
    apply get_Some_in. rewrite Hget. unfold clicks_entry.
    assert (Hf : record ∈ filter
      (fun r => Moment.format (click_date r) = Moment.format (click_date record)) rows).
    { apply list_elem_of_filter. split; [reflexivity | now apply list_elem_of_In]. }
    destruct (filter _ rows) as [|a l] eqn:Hfl; [inversion Hf|]. now rewrite Hgeb. }
  split; [|split; [|split]].
  - assert (Heq : map ClickCount.date (clicksByDateArrayOf o) = JsObject.keys o).
    { unfold clicksByDateArrayOf, JsObject.keys. rewrite map_map.
      apply map_ext. now intros [d c]. }
    rewrite Heq. now apply NoDup_keys.
  - intros e He. apply in_clicksByDateArrayOf in He.
    apply in_get_Some in He; [|exact Hnd]. rewrite Hget in He.
    unfold clicks_entry in He.
    destruct (filter _ rows) as [|a l] eqn:Hf; [discriminate|].
    destruct (geb (ClickCount.date e) sevenDaysAgo) eqn:Hgeb; [|discriminate].
    injection He as <-. repeat split; [now apply geb_not_ltb|].
    exists a. assert (Ha : a ∈ filter
      (fun record => Moment.format (click_date record) = ClickCount.date e) rows)
      by (rewrite Hf; left).
    apply list_elem_of_filter in Ha as [Hd Ha]. split; [now apply list_elem_of_In | exact Hd].
  - exact Hcomplete.
  - intros record Hin Hdate.
    apply in_map_iff. eexists. split; [|apply (Hcomplete record Hin)].
    + reflexivity.
    + rewrite Hdate. apply geb_refl.
Qed.

(** ** C2: NotFound is decided before any aggregation *)

Lemma getAliasReport_not_found today a st :
  response (getAliasReport today a st) = NotFound
  <-> findUrlQuery a st = (QRows [], (pop_outage st).2).
Proof.
  unfold getAliasReport.
  assert (Hsnd : (findUrlQuery a st).2 = (pop_outage st).2)
    by (unfold findUrlQuery; now rewrite db_select_unfold).
  destruct (findUrlQuery a st) as [[msg|[|row rest]] st1]; simpl in Hsnd; subst st1.
  - split; discriminate.
  - split; reflexivity.
  - split; [|discriminate].
    destruct (analyticsQuery a (pop_outage st).2) as [[msg|rows] st2];
      [discriminate|].
    destruct (aliasReport today rows); discriminate.
Qed.

(** C2. For every alias: when the lookup is answered, the alias report
    is NotFound exactly when the alias is the short_url or custom_alias of
    no row of urls; NotFound is sent after that one query, before the
    analytics are fetched or aggregated. When the alias is registered
    and the grouped query answers with no tuple (in particular when no
    event carries the alias), the report is sent, not NotFound, with
    totalClicks 0, uniqueUsers 0 and empty clicksByDate, osType and
    deviceType. *)
Theorem C2_not_found_and_empty_report (today : Moment.Date) (a : string) (st : Storage) :
  (answered st ->
   (response (getAliasReport today a st) = NotFound
    <-> forall u, In u (urls st) -> ~ matches_alias a u))
  /\ (response (getAliasReport today a st) = NotFound ->
      storage (getAliasReport today a st) = (pop_outage st).2)
  /\ (forall st2,
        answered st ->
        (exists u, In u (urls st) /\ matches_alias a u) ->
        analyticsQuery a (pop_outage st).2 = (QRows [], st2) ->
        response (getAliasReport today a st) = Json 200 (AliasReportBody empty_report))
  /\ (answered_twice st ->
      (exists u, In u (urls st) /\ matches_alias a u) ->
      (forall e, In e (url_analytics st) -> UrlAnalytics.alias e <> a) ->
      response (getAliasReport today a st) = Json 200 (AliasReportBody empty_report)).
Proof.
  assert (Hfound : answered st ->
    (exists u, In u (urls st) /\ matches_alias a u) ->
    exists row rest, findUrlQuery a st = (QRows (row :: rest), (pop_outage st).2)).
  { intros Hans (u & Hu & Hm). rewrite findUrlQuery_answered by exact Hans.
    destruct (take 1 (filter (matches_alias a) (urls st))) as [|row rest] eqn:Ht; [|eauto].
    exfalso. apply (proj1 (take1_filter_nil _ _) Ht u); [now apply list_elem_of_In | exact Hm]. }
  assert (Hempty : forall st2,
    answered st ->
    (exists u, In u (urls st) /\ matches_alias a u) ->
    analyticsQuery a (pop_outage st).2 = (QRows [], st2) ->
    response (getAliasReport today a st) = Json 200 (AliasReportBody empty_report)).
  { intros st2 Hans Hreg Hrows. destruct (Hfound Hans Hreg) as (row & rest & Hfind).
    now rewrite (getAliasReport_found _ _ _ _ _ _ _ _ Hfind Hrows). }
  split; [|split; [|split]].
  - intros Hans. rewrite getAliasReport_not_found, findUrlQuery_answered by exact Hans.
    split.
    + intros [= Ht] u Hu. apply (proj1 (take1_filter_nil _ _) Ht u). now apply list_elem_of_In.
    + intros Hnone. f_equal. f_equal. apply (proj2 (take1_filter_nil _ _)).
      intros u Hu. apply Hnone. now apply list_elem_of_In.
  - intros Hnf. apply getAliasReport_not_found in Hnf.
    unfold getAliasReport. now rewrite Hnf.
  - exact Hempty.
  - intros [Hans1 Hans2] Hreg Hnone. eapply (Hempty _ Hans1 Hreg).
    apply analyticsQuery_no_events; [exact Hans2|].
    intros e He. rewrite (proj2 (pop_outage_tables st)) in He.
    apply Hnone. now apply list_elem_of_In.
Qed.

(** ** C8: a failed recording does not fail the redirect *)

(** C8. For every redirect of an alias that resolves to a row, the
    response is the redirect to the long URL of that row whatever the
    insert of the analytics event does: when the insert fails with an
    error, the error is written to the console, the tables stay as they
    were, and nothing else happens; when it succeeds the event is
    appended. *)
Theorem C8_recording_failure_is_swallowed
  (geoip : string -> option Geo) (now : Moment.Date) (req : RedirectRequest)
  (st st1 : Storage) (row : Urls.row) (rest : list Urls.row) :
  findUrlQuery (param_alias req) st = (QRows (row :: rest), st1) ->
  forall inserted st2,
    insertAnalyticsQuery (analyticsEvent geoip now req) st1 = (inserted, st2) ->
    response (redirect geoip now req st) = Redirect (Urls.long_url row)
    /\ storage (redirect geoip now req st) = st2
    /\ urls st2 = urls st
    /\ match inserted with
       | QError message =>
           console (redirect geoip now req st)
           = [Line ("Error logging analytics: " ++ message)%string]
           /\ url_analytics st2 = url_analytics st
       | QRows _ =>
           console (redirect geoip now req st) = []
           /\ url_analytics st2 = url_analytics st ++ [analyticsEvent geoip now req]
       end.
Proof.
  intros Hfind inserted st2 Hins.
  pose proof (redirect_found geoip now req st row rest st1 Hfind) as (Hresp & Hurls & Hcase).
  rewrite Hins in Hcase.
  assert (Hst : storage (redirect geoip now req st) = st2)
    by (unfold redirect; now rewrite Hfind, Hins).
  rewrite Hst in *. repeat split; assumption.
Qed.

(** ** Creation of short URLs *)

Lemma checkAliasQuery_answered customAlias st :
  answered st ->
  checkAliasQuery customAlias st
  = (QRows match customAlias with
           | None => []
           | Some a => filter (fun u => Urls.custom_alias u = Some a) (urls st)
           end,
     (pop_outage st).2).
Proof.
  intros H. unfold checkAliasQuery. rewrite db_select_answered by exact H.
  now rewrite (proj1 (pop_outage_tables st)).
Qed.

(** An insert into [urls] either fails and changes no table, or appends a
    row the constraints accept. *)
Lemma insertQuery_cases r st :
  let (inserted, st') := insertQuery r st in
  url_analytics st' = url_analytics st
  /\ match inserted with
     | QError _ => urls st' = urls st
     | QRows _ => urls st' = urls st ++ [r] /\ urls_accepts (urls st) r
     end.
Proof.
  unfold insertQuery.
  pose proof (pop_outage_tables st) as [Hu Ha].
  destruct (pop_outage st) as [[] st']; simpl in *; [split; assumption|].
  destruct (decide _) as [Hacc|]; simpl.
  - split; [congruence | split; [congruence | now rewrite <- Hu]].
  - split; congruence.
Qed.

(** The possible effects of [POST /shorten] on the tables. *)
Lemma shorten_tables req generated st :
  url_analytics (storage (shorten req generated st)) = url_analytics st
  /\ (urls (storage (shorten req generated st)) = urls st
      \/ exists longUrl0,
           truthy (longUrl req) = Some longUrl0
           /\ urls (storage (shorten req generated st))
              = urls st ++ [created_row req generated longUrl0]
           /\ urls_accepts (urls st) (created_row req generated longUrl0)).
Proof.
  unfold shorten. destruct (truthy (longUrl req)) as [longUrl0|]; [|simpl; auto].
  unfold checkAliasQuery. rewrite db_select_unfold.
  pose proof (pop_outage_tables st) as [Hu Ha].
  destruct (pop_outage st).1; [simpl; auto|].
  destruct (decide _); [simpl; auto|].
  pose proof (insertQuery_cases (created_row req generated longUrl0) (pop_outage st).2) as Hins.
  fold (created_row req generated longUrl0).
  destruct (insertQuery _ _) as [[msg|rows] st2]; destruct Hins as [Ha2 Hu2]; simpl.
  - split; [congruence | left; congruence].
  - destruct Hu2 as [Hu2 Hacc]. split; [congruence|]. right. exists longUrl0.
    rewrite <- Hu. auto.
Qed.

(** A 201 response means the row was inserted. *)
Lemma shorten_created req generated st body :
  response (shorten req generated st) = Json 201 body ->
  exists longUrl0,
    truthy (longUrl req) = Some longUrl0
    /\ urls (storage (shorten req generated st))
       = urls st ++ [created_row req generated longUrl0]
    /\ urls_accepts (urls st) (created_row req generated longUrl0).
Proof.
  unfold shorten. destruct (truthy (longUrl req)) as [longUrl0|]; [|discriminate].
  unfold checkAliasQuery. rewrite db_select_unfold.
  pose proof (pop_outage_tables st) as [Hu Ha].
  destruct (pop_outage st).1; [discriminate|].
  destruct (decide _); [discriminate|].
  pose proof (insertQuery_cases (created_row req generated longUrl0) (pop_outage st).2) as Hins.
  fold (created_row req generated longUrl0).
  destruct (insertQuery _ _) as [[msg|rows] st2]; destruct Hins as [Ha2 Hu2];
    [discriminate|].
  intros _. simpl. destruct Hu2 as [Hu2 Hacc]. exists longUrl0. rewrite <- Hu. auto.
Qed.

(** With a long URL and an answered lookup, the conflict response is
    decided by the rows whose custom_alias is the requested one. *)
Lemma shorten_conflict_iff req generated st :
  truthy (longUrl req) <> None ->
  answered st ->
  response (shorten req generated st) = AliasConflict
  <-> exists a,
        customAlias req = Some a
        /\ exists u, In u (urls st) /\ Urls.custom_alias u = Some a.
Proof.
  intros Hlong Hans. unfold shorten.
  destruct (truthy (longUrl req)) as [longUrl0|]; [clear Hlong | now contradiction Hlong].
  rewrite checkAliasQuery_answered by exact Hans.
  destruct (decide _) as [Hpos|Hzero].
  - split; [intros _ | reflexivity].
    destruct (customAlias req) as [a|]; [|simpl in Hpos; lia].
    exists a. split; [reflexivity|].
    destruct (filter _ (urls st)) as [|u l] eqn:Hf; [simpl in Hpos; lia|].
    assert (Hu : u ∈ filter (fun u => Urls.custom_alias u = Some a) (urls st))
      by (rewrite Hf; left).
    apply list_elem_of_filter in Hu as [Hca Hu]. exists u.
    split; [now apply list_elem_of_In | exact Hca].
  - split.
    + destruct (insertQuery _ _) as [[msg|rows] st2]; discriminate.
    + intros (a & Ha & u & Hu & Hca). exfalso. apply Hzero. rewrite Ha.
      assert (Hin : u ∈ filter (fun u => Urls.custom_alias u = Some a) (urls st))
        by (apply list_elem_of_filter; split; [exact Hca | now apply list_elem_of_In]).
      destruct (filter _ (urls st)); [inversion Hin | simpl; lia].
Qed.

(** ** C7: the alias conflict *)

(** A request without long URL whose custom alias is taken. *)
Example taken_alias_without_long_url :
  let st := {| urls := [ {| Urls.long_url := "http://x.com"; Urls.short_url := "abc";
                            Urls.custom_alias := Some "abc"; Urls.topic := None |} ];
               url_analytics := []; outages := [];
               pasted_sql := syntax_error |} in
  let req := {| longUrl := None; customAlias := Some "abc"; topic := None;
                protocol := "http"; host := "localhost:3000" |} in
  response (shorten req "tok" st) = ValidationError
  /\ response (shorten req "tok" st) <> AliasConflict.
Proof. split; [reflexivity | discriminate]. Qed.

(** C7, as stated, fails: a request whose custom alias is already
    registered but which carries no long URL is answered with the
    validation error, not with AliasConflict. *)
Lemma C7_counterexample :
  ~ (forall req generated st,
       response (shorten req generated st) = AliasConflict
       <-> exists a,
             customAlias req = Some a
             /\ exists u, In u (urls st) /\ Urls.custom_alias u = Some a).
Proof.
  intros H.
  specialize (H {| longUrl := None; customAlias := Some "abc"; topic := None;
                   protocol := "http"; host := "localhost:3000" |}
                "tok"
                {| urls := [ {| Urls.long_url := "http://x.com"; Urls.short_url := "abc";
                                Urls.custom_alias := Some "abc"; Urls.topic := None |} ];
                   url_analytics := []; outages := [];
               pasted_sql := syntax_error |}).
  destruct H as [_ H].
  assert (Hconflict : response (reply
            {| urls := [ {| Urls.long_url := "http://x.com"; Urls.short_url := "abc";
                            Urls.custom_alias := Some "abc"; Urls.topic := None |} ];
               url_analytics := []; outages := [];
               pasted_sql := syntax_error |} ValidationError) = AliasConflict).
  { apply H. exists "abc". split; [reflexivity|]. eexists. split; [left; reflexivity | reflexivity]. }
  discriminate Hconflict.
Qed.

(** C7, amended. For a request that carries a long URL and whose lookup
    is answered, create fails with AliasConflict if and only if a custom
    alias is supplied and equals the custom_alias of an existing row. The
    check looks at custom_alias values only: a supplied alias that equals
    an existing short_url token but no custom_alias is not answered with
    AliasConflict (the insert is attempted and refused by the table).
    After a successful creation with a custom alias, a second creation
    with the same alias is answered with AliasConflict. *)
Theorem C7_alias_conflict (req : ShortenRequest) (generated : string) (st : Storage) :
  truthy (longUrl req) <> None ->
  answered st ->
  (response (shorten req generated st) = AliasConflict
   <-> exists a,
         customAlias req = Some a
         /\ exists u, In u (urls st) /\ Urls.custom_alias u = Some a)
  /\ (forall a,
        customAlias req = Some a -> a <> "" ->
        (exists u, In u (urls st) /\ Urls.short_url u = a) ->
        (forall u, In u (urls st) -> Urls.custom_alias u <> Some a) ->
        response (shorten req generated st)
        = Json 500 (ErrorBody "Failed to create short URL")
        /\ urls (storage (shorten req generated st)) = urls st)
  /\ (forall a body req2 generated2,
        customAlias req = Some a -> a <> "" ->
        response (shorten req generated st) = Json 201 body ->
        customAlias req2 = Some a ->
        truthy (longUrl req2) <> None ->
        answered (storage (shorten req generated st)) ->
        response (shorten req2 generated2 (storage (shorten req generated st)))
        = AliasConflict).
Proof.
  intros Hlong Hans. split; [now apply shorten_conflict_iff|]. split.
  - intros a Ha Hne (u & Hu & Htok) Hfree.
    assert (Htruthy : truthy (customAlias req) = Some a)
      by (rewrite Ha; destruct a; [contradiction | reflexivity]).
    assert (Hnc : response (shorten req generated st) <> AliasConflict).
    { intros Hc. apply shorten_conflict_iff in Hc; [|assumption..].
      destruct Hc as (b & Hb & v & Hv & Hvb). rewrite Ha in Hb. injection Hb as <-.
      exact (Hfree v Hv Hvb). }
    destruct (shorten_tables req generated st) as [_ [Hsame|(l0 & _ & _ & Hacc)]].
    + split; [|exact Hsame].
      revert Hnc Hsame. unfold shorten.
      destruct (truthy (longUrl req)) as [longUrl0|]; [|now contradiction Hlong].
      rewrite checkAliasQuery_answered by exact Hans.
      destruct (decide _); [intros Hnc; now contradiction Hnc|].
      pose proof (insertQuery_cases (created_row req generated longUrl0) (pop_outage st).2)
        as Hins.
      fold (created_row req generated longUrl0).
      destruct (insertQuery _ _) as [[msg|rows] st2]; [reflexivity|].
      destruct Hins as [_ [Happ _]]. simpl. intros _ Hsame.
      rewrite Happ, (proj1 (pop_outage_tables st)) in Hsame.
      apply (f_equal (@List.length _)) in Hsame. rewrite length_app in Hsame.
      simpl in Hsame. lia.
    + exfalso. destruct Hacc as [Hfresh _]. apply Hfresh.
      unfold created_row. cbn [Urls.short_url]. rewrite Htruthy. simpl.
      apply list_elem_of_In, in_map_iff. exists u. auto.
  - intros a body req2 generated2 Ha Hne Hcreated Ha2 Hlong2 Hans2.
    apply shorten_conflict_iff; [assumption..|].
    exists a. split; [exact Ha2|].
    destruct (shorten_created _ _ _ _ Hcreated) as (l0 & _ & Hurls & _).
    exists (created_row req generated l0). split.
    + rewrite Hurls. apply in_app_iff. right. now left.
    + unfold created_row. cbn [Urls.custom_alias]. rewrite Ha.
      destruct a; [contradiction | reflexivity].
Qed.

(** ** C9: a custom alias is stored as the token as well *)

Lemma created_row_alias req generated longUrl0 a :
  Urls.custom_alias (created_row req generated longUrl0) = Some a ->
  Urls.short_url (created_row req generated longUrl0) = a.
Proof. unfold created_row. cbn. now intros ->. Qed.

Lemma db_select_storage {A : Type} (rows : Storage -> list A) st :
  urls (db_select rows st).2 = urls st.
Proof. rewrite db_select_unfold. apply pop_outage_tables. Qed.

Lemma redirect_urls geoip now req st :
  urls (storage (redirect geoip now req st)) = urls st.
Proof.
  unfold redirect.
  pose proof (db_select_storage
                (fun st => take 1 (filter (matches_alias (param_alias req)) (urls st))) st)
    as Hsel.
  fold (findUrlQuery (param_alias req)) in Hsel.
  destruct (findUrlQuery (param_alias req) st) as [[msg|[|row rest]] st1];
    simpl in *; try exact Hsel.
  pose proof (insertAnalyticsQuery_cases (analyticsEvent geoip now req) st1) as Hins.
  destruct (insertAnalyticsQuery _ st1) as [inserted st2]. simpl.
  destruct Hins as [-> _]. exact Hsel.
Qed.

Lemma getAliasReport_urls today a st :
  urls (storage (getAliasReport today a st)) = urls st.
Proof.
  unfold getAliasReport, findUrlQuery, analyticsQuery.
  rewrite (db_select_unfold _ st).
  destruct (pop_outage st).1; simpl; [apply pop_outage_tables|].
  destruct (take 1 _); simpl; [apply pop_outage_tables|].
  rewrite (db_select_unfold _ (pop_outage st).2).
  destruct (pop_outage (pop_outage st).2).1; simpl.
  - rewrite (proj1 (pop_outage_tables _)). apply pop_outage_tables.
  - destruct (aliasReport today _); simpl;
      rewrite (proj1 (pop_outage_tables _)); apply pop_outage_tables.
Qed.

Lemma getTopicReport_urls t st :
  urls (storage (getTopicReport t st)) = urls st.
Proof.
  unfold getTopicReport, topicUrlsQuery.
  rewrite (db_select_unfold _ st).
  destruct (pop_outage st).1; simpl; [apply pop_outage_tables|].
  destruct (filter _ (urls (pop_outage st).2)) as [|u l]; simpl;
    [apply pop_outage_tables|].
  pose proof (topicAnalyticsQuery_storage (Urls.short_url u :: map Urls.short_url l)
                (pop_outage st).2) as Hst.
  destruct (topicAnalyticsQuery _ _) as [[message|rows] st2]; simpl in *; subst st2.
  - rewrite (proj1 (pop_outage_tables _)). apply pop_outage_tables.
  - destruct (topicReport _ _); simpl;
      rewrite (proj1 (pop_outage_tables _)); apply pop_outage_tables.
Qed.

(** Serving a request leaves [urls] alone or appends one accepted row
    whose custom alias, if any, is its token. *)
Lemma serve_urls geoip c st :
  urls (storage (serve geoip c st)) = urls st
  \/ exists row,
       urls (storage (serve geoip c st)) = urls st ++ [row]
       /\ urls_accepts (urls st) row
       /\ forall a, Urls.custom_alias row = Some a -> Urls.short_url row = a.
Proof.
  destruct c as [req generated|now req|today a|t]; simpl.
  - destruct (shorten_tables req generated st) as [_ [Hsame|(l0 & _ & Happ & Hacc)]];
      [now left|].
    right. exists (created_row req generated l0).
    split; [assumption | split; [assumption | apply created_row_alias]].
  - left. apply redirect_urls.
  - left. apply getAliasReport_urls.
  - left. apply getTopicReport_urls.
Qed.

Lemma urls_invariant_snoc table row :
  urls_invariant table ->
  urls_accepts table row ->
  (forall a, Urls.custom_alias row = Some a -> Urls.short_url row = a) ->
  urls_invariant (table ++ [row]).
Proof.
  intros [Hnd Halias] [Hfresh _] Hrow. split.
  - rewrite map_app. apply NoDup_app. repeat split; [exact Hnd | | apply NoDup_singleton].
    intros x Hx Hx'. apply list_elem_of_singleton in Hx' as ->. exact (Hfresh Hx).
  - intros u a Hu Ha. apply in_app_iff in Hu as [Hu|[<-|[]]]; eauto.
Qed.

Lemma reachable_urls_invariant geoip st :
  reachable geoip st -> urls_invariant (urls st).
Proof.
  induction 1 as [schedule|c st Hreach IH].
  - split; [constructor | intros u a []].
  - destruct (serve_urls geoip c st) as [->|(row & -> & Hacc & Hrow)]; [exact IH|].
    now apply urls_invariant_snoc.
Qed.

Lemma filter_ext_in {A : Type} (P Q : A -> Prop)
  `{forall x, Decision (P x)} `{forall x, Decision (Q x)} (l : list A) :
  (forall x, In x l -> (P x <-> Q x)) -> filter P l = filter Q l.
Proof.
  induction l as [|x l IH]; intros Hext; [reflexivity|].
  rewrite !filter_cons.
  assert (Hx : P x <-> Q x) by (apply Hext; now left).
  rewrite IH by (intros y Hy; apply Hext; now right).
  destruct (decide (P x)), (decide (Q x)); tauto.
Qed.

(** With distinct tokens, the rows of a given token are that one row. *)
Lemma filter_unique_token table u :
  NoDup (map Urls.short_url table) ->
  In u table ->
  filter (fun x => Urls.short_url x = Urls.short_url u) table = [u].
Proof.
  induction table as [|x table IH]; intros Hnd Hu; [destruct Hu|].
  simpl in Hnd. apply NoDup_cons in Hnd as [Hx Hnd].
  rewrite filter_cons. destruct Hu as [->|Hu].
  - rewrite decide_True by reflexivity. f_equal.
    destruct (filter _ table) as [|y l] eqn:Hf; [reflexivity|]. exfalso.
    assert (Hy : y ∈ filter (fun x => Urls.short_url x = Urls.short_url u) table)
      by (rewrite Hf; left).
    apply list_elem_of_filter in Hy as [Hy Hin]. apply Hx. rewrite <- Hy.
    apply list_elem_of_In, in_map. now apply list_elem_of_In.
  - rewrite decide_False; [now apply IH|].
    intros Heq. apply Hx. rewrite Heq.
    apply list_elem_of_In, in_map. exact Hu.
Qed.

(** C9. A successful creation with a (non-empty) custom alias appends a
    row whose short_url and custom_alias are both that alias. Hence, in
    every state the service can reach, a row with a custom alias has it
    as its token, and looking the alias up by token, by custom alias, or
    by either as the handlers do, finds exactly that row. *)
Theorem C9_custom_alias_is_the_token (geoip : string -> option Geo) :
  (forall req generated st a body,
     customAlias req = Some a -> a <> "" ->
     response (shorten req generated st) = Json 201 body ->
     exists row,
       urls (storage (shorten req generated st)) = urls st ++ [row]
       /\ Urls.short_url row = a
       /\ Urls.custom_alias row = Some a)
  /\ (forall st u a,
        reachable geoip st ->
        In u (urls st) ->
        Urls.custom_alias u = Some a ->
        Urls.short_url u = a
        /\ filter (fun x => Urls.short_url x = a) (urls st) = [u]
        /\ filter (fun x => Urls.custom_alias x = Some a) (urls st) = [u]
        /\ take 1 (filter (matches_alias a) (urls st)) = [u]).
Proof.
  split.
  - intros req generated st a body Ha Hne Hcreated.
    destruct (shorten_created _ _ _ _ Hcreated) as (l0 & _ & Hurls & _).
    exists (created_row req generated l0).
    assert (Htruthy : truthy (customAlias req) = Some a)
      by (rewrite Ha; destruct a; [contradiction | reflexivity]).
    unfold created_row at 2 3. cbn. rewrite Htruthy. auto.
  - intros st u a Hreach Hu Ha.
    destruct (reachable_urls_invariant geoip st Hreach) as [Hnd Halias].
    pose proof (Halias u a Hu Ha) as Htok.
    assert (Hone : filter (fun x => Urls.short_url x = a) (urls st) = [u])
      by (rewrite <- Htok; now apply filter_unique_token).
    assert (Hsame : forall x, In x (urls st) -> Urls.short_url x = a -> x = u).
    { intros x Hx Hxa.
      assert (Hin : x ∈ filter (fun x => Urls.short_url x = a) (urls st))
        by (apply list_elem_of_filter; split; [exact Hxa | now apply list_elem_of_In]).
      rewrite Hone in Hin. now apply list_elem_of_singleton in Hin. }
    split; [exact Htok|]. split; [exact Hone|]. split.
    + rewrite <- Hone. apply filter_ext_in. intros x Hx. split.
      * intros Hxa. exact (Halias x a Hx Hxa).
      * intros Hxa. now rewrite (Hsame x Hx Hxa).
    + assert (Hm : filter (matches_alias a) (urls st) = [u]); [|now rewrite Hm].
      rewrite <- Hone. apply filter_ext_in. intros x Hx. unfold matches_alias. split.
      * intros [Hxa|Hxa]; [exact Hxa | exact (Halias x a Hx Hxa)].
      * intros Hxa. now left.
Qed.

(** ** The topic roll-up *)

Lemma mapThrowing_total {A B : Type} (f : A -> Exception + B) (l : list A) :
  (forall x, In x l -> exists y, f x = inr y) ->
  exists ys, mapThrowing f l = inr ys /\ Forall2 (fun x y => f x = inr y) l ys.
Proof.
  induction l as [|x l IH]; intros Hall; simpl.
  - exists []. split; [reflexivity | constructor].
  - destruct (Hall x (or_introl eq_refl)) as [y Hy].
    destruct IH as (ys & Hys & Hrel); [intros z Hz; apply Hall; now right|].
    exists (y :: ys). rewrite Hy, Hys. split; [reflexivity | now constructor].
Qed.

(** The state of the topic accumulator after the loop has run over
    [rows], none of which carries an inherited name as alias. *)
Lemma topic_loop_state rows :
  no_inherited_alias rows ->
  exists acc,
    forEach topicStep rows
      {| TopicAcc.totalClicks := 0; TopicAcc.uniqueUsersSet := ∅;
         TopicAcc.clicksByDate := []; TopicAcc.urlsAnalytics := [] |} = inr acc
    /\ TopicAcc.totalClicks acc = sum_list_with total_clicks rows
    /\ TopicAcc.uniqueUsersSet acc = list_to_set (map ip_address rows)
    /\ NoDup (map fst (TopicAcc.urlsAnalytics acc))
    /\ forall a,
         JsObject.get a (TopicAcc.urlsAnalytics acc)
         = url_acc_for (filter (fun record => alias record = a) rows).
Proof.
  induction rows as [|r rows IH] using rev_ind; intros Hfree.
  - eexists. split; [reflexivity|]. repeat split; simpl; auto. constructor.
  - apply Forall_app in Hfree as [Hrows Hr].
    apply (proj1 (Forall_singleton _ _)) in Hr.
    destruct (IH Hrows) as (acc & Hrun & Htotal & Hset & Hnd & Hget).
    rewrite forEach_app, Hrun. cbn [forEach]. unfold topicStep.
    pose proof (Hget (alias r)) as Hlook.
    destruct (JsObject.get (alias r) (TopicAcc.urlsAnalytics acc)) as [data|];
      [|rewrite decide_False by (intros Hin; apply Hr; now apply list_elem_of_In)];
      (eexists; split; [reflexivity|];
       cbn [TopicAcc.totalClicks TopicAcc.uniqueUsersSet TopicAcc.urlsAnalytics];
       split; [|split; [|split]];
       [ rewrite sum_list_with_app, Htotal; simpl; lia
       | rewrite Hset, map_app, list_to_set_app_L; simpl;
         apply set_eq; intros x;
         rewrite !elem_of_union, !elem_of_singleton, elem_of_empty; tauto
       | now apply NoDup_put
       | intros a; rewrite filter_snoc;
         destruct (decide (alias r = a)) as [<-|Hne];
         [ rewrite get_put_eq
         | rewrite get_put_ne by exact Hne; rewrite Hget; now rewrite app_nil_r ] ]).
    + destruct (filter _ rows) as [|x l]; [discriminate|].
      injection Hlook as ->. simpl. f_equal. f_equal.
      * rewrite sum_list_with_app. simpl. lia.
      * rewrite map_app. simpl.
        change (ip_address x :: map ip_address l ++ [ip_address r])
          with (map ip_address [x] ++ (map ip_address l ++ [ip_address r])).
        rewrite !list_to_set_app_L. simpl.
        apply set_eq. intros y.
        rewrite !elem_of_union, !elem_of_singleton, elem_of_empty. tauto.
    + destruct (filter _ rows) as [|x l]; [|discriminate].
      simpl. f_equal. f_equal. lia.
Qed.

Lemma find_short_url a urlsResults :
  In a (map Urls.short_url urlsResults) ->
  exists urlInfo,
    find (fun url => String.eqb (Urls.short_url url) a) urlsResults = Some urlInfo
    /\ Urls.short_url urlInfo = a.
Proof.
  induction urlsResults as [|u l IH]; simpl; [tauto|].
  intros Hin. destruct (String.eqb_spec (Urls.short_url u) a) as [Heq|Hne]; [eauto|].
  apply IH. destruct Hin; [contradiction | assumption].
Qed.

Lemma urlEntryOf_inv urlsResults urlsAnalytics a e :
  urlEntryOf urlsResults urlsAnalytics a = inr e ->
  UrlEntry.shortUrl e = a
  /\ exists data,
       JsObject.get a urlsAnalytics = Some data
       /\ UrlEntry.totalClicks e = UrlAcc.totalClicks data
       /\ UrlEntry.uniqueUsers e = size (UrlAcc.uniqueUsers data).
Proof.
  unfold urlEntryOf.
  destruct (find _ urlsResults) as [urlInfo|] eqn:Hfind; [|discriminate].
  destruct (JsObject.get a urlsAnalytics) as [data|]; [|discriminate].
  intros [= <-]. simpl. split; [|eauto].
  apply find_some in Hfind as [_ Heq]. now apply String.eqb_eq in Heq.
Qed.

Lemma in_alias_filter a rows :
  In a (map alias rows) <-> filter (fun record => alias record = a) rows <> [].
Proof.
  split.
  - intros Hin Hnil. apply in_map_iff in Hin as (r & Hr & Hin).
    assert (Hf : r ∈ filter (fun record => alias record = a) rows)
      by (apply list_elem_of_filter; split; [exact Hr | now apply list_elem_of_In]).
    rewrite Hnil in Hf. inversion Hf.
  - intros Hne. destruct (filter _ rows) as [|r l] eqn:Hf; [contradiction|].
    assert (Hr : r ∈ filter (fun record => alias record = a) rows) by (rewrite Hf; left).
    apply list_elem_of_filter in Hr as [Hr Hin].
    apply in_map_iff. exists r. split; [exact Hr | now apply list_elem_of_In].
Qed.

(** The topic report on tuples whose aliases are tokens of the topic and
    are not inherited names: one entry per alias that has a tuple, with
    the clicks and the distinct ip_address values of its tuples. *)
Lemma topicReport_regular urlsResults rows :
  no_inherited_alias rows ->
  (forall record, In record rows -> In (alias record) (map Urls.short_url urlsResults)) ->
  exists report,
    topicReport urlsResults rows = inr report
    /\ TopicReport.totalClicks report = sum_list_with total_clicks rows
    /\ TopicReport.uniqueUsers report = distinct_count (map ip_address rows)
    /\ NoDup (map UrlEntry.shortUrl (TopicReport.urls report))
    /\ (forall a,
          In a (map UrlEntry.shortUrl (TopicReport.urls report)) <-> In a (map alias rows))
    /\ (forall e,
          In e (TopicReport.urls report) ->
          UrlEntry.totalClicks e
          = sum_list_with total_clicks
              (filter (fun record => alias record = UrlEntry.shortUrl e) rows)
          /\ UrlEntry.uniqueUsers e
             = distinct_count
                 (map ip_address
                    (filter (fun record => alias record = UrlEntry.shortUrl e) rows))).
Proof.
  intros Hfree Htokens.
  destruct (topic_loop_state rows Hfree) as (acc & Hrun & Htotal & Hset & Hnd & Hget).
  unfold topicReport. rewrite Hrun.
  set (o := TopicAcc.urlsAnalytics acc) in *.
  assert (Hkey : forall a, In a (JsObject.keys o) <-> In a (map alias rows)).
  { intros a. rewrite in_keys, in_alias_filter.
    pose proof (Hget a) as Hlook. pose proof (get_None_notin a o) as Hnone.
    destruct (filter _ rows) as [|r l]; simpl in Hlook; rewrite Hlook in Hnone.
    - split; [intros Hin; exfalso; exact (proj1 Hnone eq_refl Hin) | contradiction].
    - split; [discriminate|]. intros _.
      destruct (in_dec string_dec a (map fst o)) as [Hin|Hout]; [exact Hin|].
      apply Hnone in Hout. discriminate. }
  destruct (mapThrowing_total (urlEntryOf urlsResults o) (JsObject.keys o))
    as (entries & -> & Hrel).
  { intros a Ha. apply Hkey in Ha as Hrows.
    apply in_map_iff in Hrows as (r & Hr & Hin).
    destruct (find_short_url a urlsResults) as (urlInfo & Hfind & _);
      [rewrite <- Hr; now apply Htokens|].
    unfold urlEntryOf. rewrite Hfind.
    apply (proj1 (in_keys _ _)) in Ha.
    destruct (JsObject.get a o) eqn:Hlook; [eauto|].
    now apply get_None_notin in Hlook. }
  assert (Hnames : map UrlEntry.shortUrl entries = JsObject.keys o).
  { clear Hkey. induction Hrel as [|a e l es He _ IH]; [reflexivity|].
    simpl. rewrite IH. f_equal. now apply urlEntryOf_inv in He as [-> _]. }
  eexists. split; [reflexivity|].
  cbn [TopicReport.totalClicks TopicReport.uniqueUsers TopicReport.urls].
  rewrite Hnames. split; [exact Htotal|]. split.
  { rewrite Hset. apply size_list_to_set_distinct. }
  split; [now apply NoDup_keys|]. split; [exact Hkey|].
  intros e He.
  assert (Hsrc : exists a, In a (JsObject.keys o) /\ urlEntryOf urlsResults o a = inr e).
  { clear Hnames Hkey. induction Hrel as [|a e' l es He' _ IH]; [destruct He|].
    destruct He as [<-|He]; [exists a; split; [now left | exact He']|].
    destruct (IH He) as (b & Hb & Hbe). exists b. split; [now right | exact Hbe]. }
  destruct Hsrc as (a & _ & Hentry).
  apply urlEntryOf_inv in Hentry as (-> & data & Hlook & -> & ->).
  rewrite Hget in Hlook.
  destruct (filter _ rows) as [|r l]; [discriminate|].
  injection Hlook as <-.
  split; [reflexivity|]. exact (size_list_to_set_distinct (map ip_address (r :: l))).
Qed.

(** When the topic lookup is answered, the topic report is NotFound
    exactly when no row of urls has the topic. *)
Lemma getTopicReport_not_found t st :
  answered st ->
  response (getTopicReport t st) = TopicNotFound
  <-> forall u, In u (urls st) -> Urls.topic u <> Some t.
Proof.
  intros Hans. unfold getTopicReport, topicUrlsQuery.
  rewrite db_select_answered by exact Hans.
  rewrite (proj1 (pop_outage_tables st)).
  destruct (filter _ (urls st)) as [|u l] eqn:Hf.
  - split; [|reflexivity]. intros _ u Hu Ht.
    assert (Hin : u ∈ filter (fun u => Urls.topic u = Some t) (urls st))
      by (apply list_elem_of_filter; split; [exact Ht | now apply list_elem_of_In]).
    rewrite Hf in Hin. inversion Hin.
  - split.
    + destruct (topicAnalyticsQuery _ _) as [[msg|rows] st2]; [discriminate|].
      destruct (topicReport _ rows); discriminate.
    + intros Hnone. exfalso.
      assert (Hu : u ∈ filter (fun u => Urls.topic u = Some t) (urls st))
        by (rewrite Hf; left).
      apply list_elem_of_filter in Hu as [Ht Hu].
      exact (Hnone u (proj1 (list_elem_of_In _ _) Hu) Ht).
Qed.

(** ** C6: the urls array of the topic report *)

(** C6 fails on the code. A custom alias may be any string; take
    "constructor". Creating it under topic "t" succeeds and a visit
    records one event for it, so the alias has an event tuple; the topic
    report then finds an inherited property under that name in
    urlsAnalytics, creates no entry, and throws, instead of answering
    with a urls array that has one entry for the alias. *)
Theorem C6_topic_report_throws_on_inherited_alias :
  let geoip := fun _ : string => None in
  let st0 := {| urls := []; url_analytics := []; outages := [];
                pasted_sql := syntax_error |} in
  let created :=
    shorten {| longUrl := Some "http://x.com"; customAlias := Some "constructor";
               topic := Some "t"; protocol := "http"; host := "localhost:3000" |}
      "tok" st0 in
  let visited :=
    redirect geoip 19723%Z
      {| param_alias := "constructor"; header_user_agent := Some "Mozilla Windows";
         ip := Some "1.1.1.1"; remoteAddress := None |}
      (storage created) in
  response created = Json 201 (CreatedBody "http://localhost:3000/constructor")
  /\ response visited = Redirect "http://x.com"
  /\ (exists rows st',
        topicAnalyticsQuery ["constructor"] (storage visited) = (QRows rows, st')
        /\ map alias rows = ["constructor"])
  /\ response (getTopicReport "t" (storage visited))
     = Uncaught (TypeError "Cannot read properties of undefined (reading 'add')").
Proof.
  cbv zeta. split; [reflexivity|]. split; [reflexivity|]. split.
  - eexists _, _. split; vm_compute; reflexivity.
  - vm_compute. reflexivity.
Qed.

(** ** The scenarios of the specification, run on the code *)

Example scenario_report :
  aliasReport scenario_today scenario_rows
  = inr {| AliasReport.totalClicks := 5;
           AliasReport.uniqueUsers := 2;
           AliasReport.clicksByDate :=
             [ {| ClickCount.date := "2024-01-01"; ClickCount.clickCount := 5 |} ];
           AliasReport.osType :=
             [ {| OsEntry.osName := "Windows"; OsEntry.uniqueClicks := 3;
                  OsEntry.uniqueUsers := 1 |};
               {| OsEntry.osName := "iOS"; OsEntry.uniqueClicks := 2;
                  OsEntry.uniqueUsers := 1 |} ];
           AliasReport.deviceType :=
             [ {| DeviceEntry.deviceName := "desktop"; DeviceEntry.uniqueClicks := 3;
                  DeviceEntry.uniqueUsers := 1 |};
               {| DeviceEntry.deviceName := "mobile"; DeviceEntry.uniqueClicks := 2;
                  DeviceEntry.uniqueUsers := 1 |} ] |}.
Proof. vm_compute. reflexivity. Qed.

Example scenario_second_create_conflicts :
  response (shorten abc_request "tok1" empty_storage)
  = Json 201 (CreatedBody "http://localhost:3000/abc")
  /\ response (shorten abc_again_request "tok2" abc_storage) = AliasConflict.
Proof. split; vm_compute; reflexivity. Qed.

Example scenario_unknown_token :
  response (redirect no_geoip scenario_today
              {| param_alias := "nope"; header_user_agent := None; ip := None;
                 remoteAddress := None |} abc_storage) = NotFound.
Proof. vm_compute. reflexivity. Qed.

Example scenario_topic_without_events :
  response (getTopicReport "t" abc_storage)
  = Json 200 (TopicReportBody
                {| TopicReport.totalClicks := 0; TopicReport.uniqueUsers := 0;
                   TopicReport.clicksByDate := []; TopicReport.urls := [] |}).
Proof. vm_compute. reflexivity. Qed.

(** The date series has no upper bound: a tuple dated 2025-01-01 is
    listed in a report computed on 2024-01-03. *)
Example future_dated_tuple_is_listed :
  exists report,
    aliasReport scenario_today
      [ {| alias := "abc"; click_date := 20089%Z; user_agent := Some "curl";
           total_clicks := 4; unique_users := 1; ip_address := None |} ] = inr report
    /\ AliasReport.clicksByDate report
       = [ {| ClickCount.date := "2025-01-01"; ClickCount.clickCount := 4 |} ].
Proof. eexists. split; vm_compute; reflexivity. Qed.

(** The rows the grouped queries return have no [ip_address] column, so
    on stored events the callbacks see one and the same value,
    [undefined], in every tuple. *)
Lemma analyticsQuery_rows_have_no_ip_address a st rows st' :
  analyticsQuery a st = (QRows rows, st') ->
  Forall (fun record => ip_address record = None) rows.
Proof.
  unfold analyticsQuery. rewrite db_select_unfold.
  destruct (pop_outage st).1; [discriminate|]. intros [= <- _].
  apply Forall_forall. intros record Hin.
  apply list_elem_of_omap in Hin as (g & _ & Hg).
  destruct g as [|e g]; [discriminate|]. now injection Hg as <-.
Qed.

Example two_visitors_counted_once :
  let st := storage (redirect no_geoip 19723%Z
                       {| param_alias := "abc"; header_user_agent := Some "Mozilla Windows";
                          ip := Some "2.2.2.2"; remoteAddress := None |}
                       (storage (redirect no_geoip 19723%Z abc_visit abc_storage))) in
  map UrlAnalytics.ip_address (url_analytics st) = [Some "1.1.1.1"; Some "2.2.2.2"]
  /\ exists report,
       response (getAliasReport scenario_today "abc" st) = Json 200 (AliasReportBody report)
       /\ AliasReport.totalClicks report = 2
       /\ AliasReport.uniqueUsers report = 1.
Proof. cbv zeta. split; [reflexivity|]. eexists. split; [vm_compute; reflexivity|]. auto. Qed.

(** ** Instances of the theorems on the sample data *)


Lemma C2_witness :
  response (getAliasReport scenario_today "nope" abc_storage) = NotFound
  <-> forall u, In u (urls abc_storage) -> ~ matches_alias "nope" u.
Proof.
  apply (proj1 (C2_not_found_and_empty_report scenario_today "nope" abc_storage)).
  unfold answered. simpl. discriminate.
Defined.

Lemma C3_witness :
  bucketStep osNameOf []
    {| alias := "abc"; click_date := 19723%Z; user_agent := Some "Mozilla iPhone";
       total_clicks := 2; unique_users := 1; ip_address := Some "2.2.2.2" |}
  = inr [ ("iOS", {| Bucket.name := "iOS"; Bucket.uniqueClicks := 2;
                     Bucket.uniqueUsers := {[ Some "2.2.2.2" ]} ∪ ∅ |}) ]
  /\ In (os_spec "Mozilla iPhone") os_buckets.
Proof.
  apply (C3_classification
           {| alias := "abc"; click_date := 19723%Z; user_agent := Some "Mozilla iPhone";
              total_clicks := 2; unique_users := 1; ip_address := Some "2.2.2.2" |}
           "Mozilla iPhone" []).
  reflexivity.
Defined.

Lemma C4_witness :
  exists report,
    aliasReport scenario_today scenario_rows = inr report
    /\ NoDup (map ClickCount.date (AliasReport.clicksByDate report)).
Proof.
  destruct (C4_clicks_by_date scenario_today scenario_rows) as (report & Hrun & Hnd & _).
  - repeat constructor; simpl; eauto.
  - exists report. split; [exact Hrun | exact Hnd].
Defined.

Lemma C5_witness :
  exists report,
    aliasReport scenario_today scenario_rows = inr report
    /\ sum_list_with OsEntry.uniqueClicks (AliasReport.osType report)
       = AliasReport.totalClicks report.
Proof.
  destruct (C5_os_clicks_sum_to_total scenario_today scenario_rows)
    as (report & Hrun & _ & Hsum & _).
  - repeat constructor; simpl; eauto.
  - exists report. split; [exact Hrun | exact Hsum].
Defined.

Lemma C7_witness :
  response (shorten abc_again_request "tok2" abc_storage) = AliasConflict
  <-> exists a,
        customAlias abc_again_request = Some a
        /\ exists u, In u (urls abc_storage) /\ Urls.custom_alias u = Some a.
Proof.
  apply (C7_alias_conflict abc_again_request "tok2" abc_storage).
  - simpl. discriminate.
  - unfold answered. simpl. discriminate.
Defined.

Lemma C8_witness :
  response (redirect no_geoip scenario_today abc_visit abc_storage_insert_fails)
  = Redirect "http://x.com"
  /\ console (redirect no_geoip scenario_today abc_visit abc_storage_insert_fails)
     = [Line "Error logging analytics: connection lost"]
  /\ url_analytics (storage (redirect no_geoip scenario_today abc_visit
                               abc_storage_insert_fails)) = [].
Proof.
  destruct (C8_recording_failure_is_swallowed no_geoip scenario_today abc_visit
              abc_storage_insert_fails
              {| urls := urls abc_storage; url_analytics := []; outages := [true];
                 pasted_sql := syntax_error |}
              {| Urls.long_url := "http://x.com"; Urls.short_url := "abc";
                 Urls.custom_alias := Some "abc"; Urls.topic := Some "t" |}
              [] eq_refl
              (QError "connection lost")
              {| urls := urls abc_storage; url_analytics := []; outages := [];
                 pasted_sql := syntax_error |}
              eq_refl)
    as (Hresp & Hst & _ & Hlog & Hev).
  rewrite Hst. repeat split; assumption.
Defined.

Lemma C9_witness :
  exists row,
    urls (storage (shorten abc_request "tok1" empty_storage)) = urls empty_storage ++ [row]
    /\ Urls.short_url row = "abc"
    /\ Urls.custom_alias row = Some "abc".
Proof.
  apply (proj1 (C9_custom_alias_is_the_token no_geoip) abc_request "tok1" empty_storage
           "abc" (CreatedBody "http://localhost:3000/abc")).
  - reflexivity.
  - discriminate.
  - reflexivity.
Defined.

Lemma C10_witness : exists report, aliasReport scenario_today scenario_rows = inr report.
Proof.
  apply (proj1 (proj1 (C10_null_user_agent_throws scenario_today scenario_rows))).
  repeat constructor; simpl; eauto.
Defined.

(** * Further properties of the handlers *)

(** ** The device buckets *)

(** The uniqueClicks of the deviceType buckets add up to totalClicks; the
    two buckets have distinct names and every tuple is in the bucket of
    its classification. *)
Theorem device_clicks_sum_to_total (today : Moment.Date) (rows : list Row) :
  agents_are_strings rows ->
  exists report,
    aliasReport today rows = inr report
    /\ sum_list_with DeviceEntry.uniqueClicks (AliasReport.deviceType report)
       = AliasReport.totalClicks report
    /\ NoDup (map DeviceEntry.deviceName (AliasReport.deviceType report))
    /\ (forall record,
          In record rows ->
          In (deviceBucketOf record)
             (map DeviceEntry.deviceName (AliasReport.deviceType report)))
    /\ (forall name,
          In name (map DeviceEntry.deviceName (AliasReport.deviceType report)) ->
          In name device_buckets).
Proof.
  intros Hstr.
  destruct (aliasReport_runs today rows Hstr) as (osm & dvm & _ & Hdv & ->).
  eexists. split; [reflexivity|]. cbn [AliasReport.totalClicks AliasReport.deviceType].
  destruct (bucket_loop_state deviceNameOf rows Hstr) as (m & Hrun & _ & Hget & Hsum).
  rewrite Hdv in Hrun. injection Hrun as <-.
  destruct (bucket_loop_names deviceNameOf rows dvm Hstr Hdv) as [Hnd Hall].
  assert (Hnames : map DeviceEntry.deviceName (deviceTypeArrayOf dvm)
                   = map Bucket.name (JsObject.values dvm)).
  { unfold deviceTypeArrayOf. rewrite map_map. reflexivity. }
  rewrite Hnames. split; [|split; [exact Hnd | split; [exact Hall|]]].
  - unfold deviceTypeArrayOf. rewrite sum_list_with_map.
    change (sum_list_with Bucket.uniqueClicks (JsObject.values dvm) = totalClicksOf rows).
    rewrite (sum_values Bucket.uniqueClicks dvm), Hsum.
    symmetry. apply totalClicksOf_sum.
  - intros name Hname. apply in_map_iff in Hname as (data & <- & Hdata).
    pose proof (bucket_loop_values deviceNameOf rows dvm data Hstr Hdv Hdata) as Hb.
    destruct (filter _ rows) as [|r l] eqn:Hf; [discriminate|].
    assert (Hr : r ∈ filter
      (fun record => deviceNameOf (toLowerCase (default "" (user_agent record)))
                     = Bucket.name data) rows) by (rewrite Hf; left).
    apply list_elem_of_filter in Hr as [<- _].
    unfold deviceNameOf, device_buckets. destruct (_ || _); simpl; auto.
Qed.

(** ** The report handlers only read *)

Lemma db_select_tables {A : Type} (rows : Storage -> list A) st :
  urls (db_select rows st).2 = urls st
  /\ url_analytics (db_select rows st).2 = url_analytics st
  /\ outages (db_select rows st).2 = tail (outages st).
Proof.
  rewrite db_select_unfold. simpl.
  split; [|split]; [apply pop_outage_tables | apply pop_outage_tables
                                            | apply pop_outage_outages].
Qed.

Lemma report_handlers_tables (today : Moment.Date) (a t : string) (st : Storage) :
  (urls (storage (getAliasReport today a st)) = urls st
   /\ url_analytics (storage (getAliasReport today a st)) = url_analytics st
   /\ (outages (storage (getAliasReport today a st)) = tail (outages st)
       \/ outages (storage (getAliasReport today a st)) = tail (tail (outages st))))
  /\ (urls (storage (getTopicReport t st)) = urls st
      /\ url_analytics (storage (getTopicReport t st)) = url_analytics st
      /\ (outages (storage (getTopicReport t st)) = tail (outages st)
          \/ outages (storage (getTopicReport t st)) = tail (tail (outages st)))).
Proof.
  split.
  - unfold getAliasReport, findUrlQuery, analyticsQuery.
    match goal with
    | |- context [db_select ?f st] =>
        pose proof (db_select_tables f st) as (Hu & Ha & Ho);
        destruct (db_select f st) as [[msg|[|row rest]] st1]
    end; simpl in Hu, Ha, Ho; simpl; try (repeat split; auto; fail).
    match goal with
    | |- context [db_select ?f st1] =>
        pose proof (db_select_tables f st1) as (Hu2 & Ha2 & Ho2);
        destruct (db_select f st1) as [[msg|rows] st2]
    end; simpl in Hu2, Ha2, Ho2; simpl.
    + rewrite Hu2, Ha2, Ho2, Hu, Ha, Ho. auto.
    + destruct (aliasReport today rows); simpl;
        rewrite Hu2, Ha2, Ho2, Hu, Ha, Ho; auto.
  - unfold getTopicReport, topicUrlsQuery.
    match goal with
    | |- context [db_select ?f st] =>
        pose proof (db_select_tables f st) as (Hu & Ha & Ho);
        destruct (db_select f st) as [[msg|[|row rest]] st1]
    end; simpl in Hu, Ha, Ho; simpl; try (repeat split; auto; fail).
    match goal with
    | |- context [topicAnalyticsQuery ?l st1] =>
        pose proof (topicAnalyticsQuery_storage l st1) as Hst;
        pose proof (pop_outage_tables st1) as (Hu2 & Ha2);
        pose proof (pop_outage_outages st1) as Ho2;
        destruct (topicAnalyticsQuery l st1) as [[msg|rows] st2]
    end; simpl in Hst; subst st2; simpl.
    + rewrite Hu2, Ha2, Ho2, Hu, Ha, Ho. auto.
    + destruct (topicReport _ rows); simpl;
        rewrite Hu2, Ha2, Ho2, Hu, Ha, Ho; auto.
Qed.

(** Neither report handler changes a table, whatever it answers; each
    issues one or two queries. *)
Theorem reports_never_write (today : Moment.Date) (a t : string) (st : Storage) :
  (urls (storage (getAliasReport today a st)) = urls st
   /\ url_analytics (storage (getAliasReport today a st)) = url_analytics st
   /\ (outages (storage (getAliasReport today a st)) = tail (outages st)
       \/ outages (storage (getAliasReport today a st)) = tail (tail (outages st))))
  /\ (urls (storage (getTopicReport t st)) = urls st
      /\ url_analytics (storage (getTopicReport t st)) = url_analytics st
      /\ (outages (storage (getTopicReport t st)) = tail (outages st)
          \/ outages (storage (getTopicReport t st)) = tail (tail (outages st)))).
Proof. apply report_handlers_tables. Qed.

(** ** Redirection *)

(** When the lookup is answered, a redirect is NotFound exactly when no
    row has the alias as token or custom alias, and then nothing is
    recorded or logged; a redirect that is sent goes to the long URL of a
    row that has the alias. *)
Theorem redirect_resolves_or_not_found
  (geoip : string -> option Geo) (now : Moment.Date) (req : RedirectRequest)
  (st : Storage) :
  answered st ->
  (response (redirect geoip now req st) = NotFound
   <-> forall u, In u (urls st) -> ~ matches_alias (param_alias req) u)
  /\ (response (redirect geoip now req st) = NotFound ->
      storage (redirect geoip now req st) = (pop_outage st).2
      /\ console (redirect geoip now req st) = [])
  /\ (forall location,
        response (redirect geoip now req st) = Redirect location ->
        exists u,
          In u (urls st) /\ matches_alias (param_alias req) u
          /\ Urls.long_url u = location).
Proof.
  intros Hans. unfold redirect.
  rewrite (findUrlQuery_answered (param_alias req) st Hans).
  destruct (take 1 (filter (matches_alias (param_alias req)) (urls st)))
    as [|row rest] eqn:Ht.
  - pose proof (proj1 (take1_filter_nil _ _) Ht) as Hnone.
    split; [|split].
    + split; [|reflexivity]. intros _ u Hu. apply Hnone. now apply list_elem_of_In.
    + intros _. split; reflexivity.
    + intros location. discriminate.
  - assert (Hrow : In row (urls st) /\ matches_alias (param_alias req) row).
    { assert (Hin : row ∈ filter (matches_alias (param_alias req)) (urls st)).
      { destruct (filter _ (urls st)) as [|x l]; [discriminate|].
        simpl in Ht. injection Ht as -> _. left. }
      apply list_elem_of_filter in Hin as [Hm Hin].
      split; [now apply list_elem_of_In | exact Hm]. }
    destruct (insertAnalyticsQuery _ _) as [inserted st2]. simpl.
    split; [|split].
    + split; [discriminate|]. intros Hnone. exfalso.
      exact (Hnone row (proj1 Hrow) (proj2 Hrow)).
    + discriminate.
    + intros location [= <-]. exists row. tauto.
Qed.

(** ** Creation *)

Lemma truthy_None v : truthy v = None <-> v = None \/ v = Some "".
Proof.
  destruct v as [[|c s]|]; simpl; split; auto; try discriminate.
  intros [H|H]; discriminate.
Qed.

Lemma truthy_Some v s : truthy v = Some s -> v = Some s /\ s <> "".
Proof. destruct v as [[|c s']|]; simpl; intros [= <-]; split; congruence. Qed.

(** Creation answers with the validation error exactly when the long URL
    is missing or empty, and then issues no query at all. Otherwise it
    never touches the events, and it changes table urls only when it
    answers 201: then it has appended exactly the row made of the long
    URL, the token (the custom alias if there is a non-empty one, else
    the generated identifier), that custom alias and the topic, and the
    body carries protocol, host and token. *)
Theorem shorten_outcomes (req : ShortenRequest) (generated : string) (st : Storage) :
  (response (shorten req generated st) = ValidationError
   <-> longUrl req = None \/ longUrl req = Some "")
  /\ (response (shorten req generated st) = ValidationError ->
      storage (shorten req generated st) = st)
  /\ url_analytics (storage (shorten req generated st)) = url_analytics st
  /\ (forall body,
        response (shorten req generated st) = Json 201 body ->
        exists longUrl0,
          longUrl req = Some longUrl0 /\ longUrl0 <> ""
          /\ body = CreatedBody (protocol req ++ "://" ++ host req ++ "/"
                                 ++ token_of req generated)%string
          /\ urls (storage (shorten req generated st))
             = urls st ++ [ {| Urls.long_url := longUrl0;
                               Urls.short_url := token_of req generated;
                               Urls.custom_alias := truthy (customAlias req);
                               Urls.topic := truthy (topic req) |} ])
  /\ ((forall body, response (shorten req generated st) <> Json 201 body) ->
      urls (storage (shorten req generated st)) = urls st).
Proof.
  pose proof (shorten_tables req generated st) as [Hev _].
  split; [|split; [|split; [exact Hev|]]].
  - rewrite <- truthy_None. unfold shorten.
    destruct (truthy (longUrl req)) as [l0|]; [|split; reflexivity].
    split; [|discriminate].
    destruct (checkAliasQuery _ st) as [[msg|results] st1]; [discriminate|].
    destruct (decide _); [discriminate|].
    destruct (insertQuery _ st1) as [[msg|rows] st2]; discriminate.
  - unfold shorten.
    destruct (truthy (longUrl req)) as [l0|]; [|reflexivity].
    destruct (checkAliasQuery _ st) as [[msg|results] st1]; [discriminate|].
    destruct (decide _); [discriminate|].
    destruct (insertQuery _ st1) as [[msg|rows] st2]; discriminate.
  - split.
    + intros body Hcreated.
      destruct (shorten_created _ _ _ _ Hcreated) as (l0 & Hl0 & Hurls & _).
      exists l0. apply truthy_Some in Hl0 as Hl. destruct Hl as [Hl Hne].
      split; [exact Hl|]. split; [exact Hne|]. split; [|exact Hurls].
      revert Hcreated. unfold shorten. rewrite Hl0.
      destruct (checkAliasQuery _ st) as [[msg|results] st1]; [discriminate|].
      destruct (decide _); [discriminate|].
      destruct (insertQuery _ st1) as [[msg|rows] st2]; [discriminate|].
      now intros [= <-].
    + intros Hnot. unfold shorten in *.
      destruct (truthy (longUrl req)) as [l0|]; [|reflexivity].
      unfold checkAliasQuery in *. rewrite db_select_unfold in *.
      pose proof (pop_outage_tables st) as [Hu _].
      destruct (pop_outage st).1; [exact Hu|].
      destruct (decide _); [exact Hu|].
      pose proof (insertQuery_cases
                    {| Urls.long_url := l0;
                       Urls.short_url := default generated (truthy (customAlias req));
                       Urls.custom_alias := truthy (customAlias req);
                       Urls.topic := truthy (topic req) |} (pop_outage st).2) as Hins.
      destruct (insertQuery _ _) as [[msg|rows] st2]; simpl in *.
      * destruct Hins as [_ ->]. exact Hu.
      * exfalso. exact (Hnot _ eq_refl).
Qed.

(** Creation never stores a token twice: when the token of the request
    is already the short_url of a row, no 201 is sent and table urls
    stays as it was, whether the token is a custom alias or generated. *)
Theorem shorten_never_duplicates_token
  (req : ShortenRequest) (generated : string) (st : Storage) :
  (exists u, In u (urls st) /\ Urls.short_url u = token_of req generated) ->
  (forall body, response (shorten req generated st) <> Json 201 body)
  /\ urls (storage (shorten req generated st)) = urls st.
Proof.
  intros (u & Hu & Htok).
  assert (Hrefused : forall l0,
            ~ urls_accepts (urls st) (created_row req generated l0)).
  { intros l0 [Hfresh _]. apply Hfresh. unfold created_row. cbn [Urls.short_url].
    fold (token_of req generated). rewrite <- Htok.
    apply list_elem_of_In, in_map. exact Hu. }
  split.
  - intros body Hcreated.
    destruct (shorten_created _ _ _ _ Hcreated) as (l0 & _ & _ & Hacc).
    exact (Hrefused l0 Hacc).
  - destruct (shorten_tables req generated st) as [_ [Hsame|(l0 & _ & _ & Hacc)]];
      [exact Hsame|].
    exfalso. exact (Hrefused l0 Hacc).
Qed.

(** ** Storage failures *)

Lemma pop_outage_failing st : failing st -> (pop_outage st).1 = true.
Proof.
  unfold failing, pop_outage. destruct (outages st) as [|[] rest]; simpl;
    intros H; try discriminate; reflexivity.
Qed.

Lemma db_select_failing {A : Type} (rows : Storage -> list A) st :
  failing st -> db_select rows st = (QError "connection lost", (pop_outage st).2).
Proof. intros H. rewrite db_select_unfold. now rewrite (pop_outage_failing st H). Qed.

(** When the first query of a request fails, every handler answers 500
    'Database error' (creation only once the long URL has passed the
    validation), logs nothing, issues no further query and leaves the
    tables alone: a storage failure is never reported as NotFound,
    AliasConflict or success. *)
Theorem first_query_failure_is_database_error
  (geoip : string -> option Geo) (c : Call) (st : Storage) :
  failing st ->
  (forall req generated, c = CallShorten req generated -> truthy (longUrl req) <> None) ->
  response (serve geoip c st) = Json 500 (ErrorBody "Database error")
  /\ console (serve geoip c st) = []
  /\ storage (serve geoip c st) = (pop_outage st).2
  /\ urls (storage (serve geoip c st)) = urls st
  /\ url_analytics (storage (serve geoip c st)) = url_analytics st.
Proof.
  intros Hfail Hlong.
  assert (Hgoal : response (serve geoip c st) = Json 500 (ErrorBody "Database error")
                  /\ console (serve geoip c st) = []
                  /\ storage (serve geoip c st) = (pop_outage st).2).
  { destruct c as [req generated|now req|today a|t]; simpl.
    - specialize (Hlong req generated eq_refl). unfold shorten.
      destruct (truthy (longUrl req)); [|now contradiction Hlong].
      unfold checkAliasQuery. rewrite db_select_failing by exact Hfail. auto.
    - unfold redirect, findUrlQuery. rewrite db_select_failing by exact Hfail. auto.
    - unfold getAliasReport, findUrlQuery. rewrite db_select_failing by exact Hfail. auto.
    - unfold getTopicReport, topicUrlsQuery. rewrite db_select_failing by exact Hfail. auto. }
  destruct Hgoal as (Hr & Hc & Hs). rewrite Hs.
  repeat split; try assumption; apply pop_outage_tables.
Qed.

(** When the lookup of a report is answered with a row and the grouped
    query then fails, both report handlers answer 500 'Error fetching
    analytics data'; only the alias report logs: it passes the label and
    the Error object the query failed with to console.error. *)
Theorem analytics_query_failure_is_reported
  (today : Moment.Date) (a t : string) (st : Storage) :
  failing_second st ->
  ((exists u, In u (urls st) /\ matches_alias a u) ->
   response (getAliasReport today a st)
   = Json 500 (ErrorBody "Error fetching analytics data")
   /\ exists error,
        (analyticsQuery a (pop_outage st).2).1 = QError error
        /\ console (getAliasReport today a st)
           = [LineWithError "Error fetching analytics data:" error])
  /\ ((exists u, In u (urls st) /\ Urls.topic u = Some t) ->
      response (getTopicReport t st)
      = Json 500 (ErrorBody "Error fetching analytics data")
      /\ console (getTopicReport t st) = []).
Proof.
  intros [Hans Hfail]. split.
  - intros (u & Hu & Hm). unfold getAliasReport.
    rewrite (findUrlQuery_answered a st Hans).
    destruct (take 1 (filter (matches_alias a) (urls st))) as [|row rest] eqn:Ht.
    + exfalso. apply (proj1 (take1_filter_nil _ _) Ht u); [now apply list_elem_of_In | exact Hm].
    + unfold analyticsQuery. rewrite db_select_failing by exact Hfail.
      split; [reflexivity|]. eexists. split; reflexivity.
  - intros (u & Hu & Ht). unfold getTopicReport, topicUrlsQuery.
    rewrite db_select_answered by exact Hans.
    rewrite (proj1 (pop_outage_tables st)).
    destruct (filter (fun u => Urls.topic u = Some t) (urls st)) as [|row rest] eqn:Hf.
    + exfalso.
      assert (Hin : u ∈ filter (fun u => Urls.topic u = Some t) (urls st))
        by (apply list_elem_of_filter; split; [exact Ht | now apply list_elem_of_In]).
      rewrite Hf in Hin. inversion Hin.
    + rewrite topicAnalyticsQuery_down by (apply pop_outage_failing; exact Hfail). auto.
Qed.

(** When the insert of a creation fails (the lookup was answered, no
    conflict), the answer is 500 'Failed to create short URL' and no row
    is stored. *)
Theorem insert_failure_creates_nothing
  (req : ShortenRequest) (generated : string) (st : Storage) :
  truthy (longUrl req) <> None ->
  failing_second st ->
  (forall a u, customAlias req = Some a -> In u (urls st) ->
               Urls.custom_alias u <> Some a) ->
  response (shorten req generated st) = Json 500 (ErrorBody "Failed to create short URL")
  /\ urls (storage (shorten req generated st)) = urls st
  /\ url_analytics (storage (shorten req generated st)) = url_analytics st.
Proof.
  intros Hlong [Hans Hfail] Hfree.
  pose proof (shorten_tables req generated st) as [Hev _].
  assert (Hnc : response (shorten req generated st) <> AliasConflict).
  { intros Hc. apply shorten_conflict_iff in Hc; [|assumption..].
    destruct Hc as (a & Ha & u & Hu & Hua).
    exact (Hfree a u Ha Hu Hua). }
  assert (Hresp : response (shorten req generated st)
                  = Json 500 (ErrorBody "Failed to create short URL")
                  /\ urls (storage (shorten req generated st)) = urls st).
  { revert Hnc. unfold shorten.
    destruct (truthy (longUrl req)) as [l0|]; [|now contradiction Hlong].
    rewrite checkAliasQuery_answered by exact Hans.
    destruct (decide _); [intros Hnc; now contradiction Hnc|]. intros _.
    unfold insertQuery.
    pose proof (pop_outage_failing _ Hfail) as Hdown.
    pose proof (pop_outage_tables (pop_outage st).2) as [Hu2 _].
    destruct (pop_outage (pop_outage st).2) as [down st2]. simpl in Hdown, Hu2.
    subst down. simpl. split; [reflexivity|].
    rewrite Hu2. apply pop_outage_tables. }
  destruct Hresp as [Hr Hu]. repeat split; assumption.
Qed.

(** ** Creation and resolution compose *)

(** In any state the service can reach, once a creation has answered
    201, the next redirect for its token, if its lookup is answered,
    goes to the long URL that was given, and the alias report of the
    token is not NotFound. *)
Theorem created_token_resolves
  (geoip : string -> option Geo) (req : ShortenRequest) (generated : string)
  (st : Storage) (body : Body) (now today : Moment.Date) (visit : RedirectRequest)
  (longUrl0 : string) :
  reachable geoip st ->
  longUrl req = Some longUrl0 ->
  response (shorten req generated st) = Json 201 body ->
  answered (storage (shorten req generated st)) ->
  param_alias visit = token_of req generated ->
  response (redirect geoip now visit (storage (shorten req generated st)))
  = Redirect longUrl0
  /\ response (getAliasReport today (token_of req generated)
                 (storage (shorten req generated st))) <> NotFound.
Proof.
  intros Hreach Hlong Hcreated Hans Hvisit.
  set (st' := storage (shorten req generated st)) in *.
  assert (Hreach' : reachable geoip st')
    by exact (reachable_serve geoip (CallShorten req generated) st Hreach).
  destruct (shorten_created _ _ _ _ Hcreated) as (l0 & Hl0 & Hurls & _).
  fold st' in Hurls.
  destruct (reachable_urls_invariant geoip st' Hreach') as [Hnd Halias].
  set (row := created_row req generated l0) in *.
  assert (Hrow : In row (urls st')) by (rewrite Hurls; apply in_app_iff; right; now left).
  assert (Htok : Urls.short_url row = token_of req generated) by reflexivity.
  assert (Hfilter : filter (matches_alias (token_of req generated)) (urls st') = [row]).
  { rewrite <- (filter_unique_token (urls st') row Hnd Hrow).
    apply filter_ext_in. intros x Hx. unfold matches_alias. rewrite Htok. split.
    - intros [Hxa|Hxa]; [exact Hxa | exact (Halias x _ Hx Hxa)].
    - intros Hxa. now left. }
  assert (Hfind : findUrlQuery (token_of req generated) st'
                  = (QRows [row], (pop_outage st').2)).
  { rewrite findUrlQuery_answered by exact Hans. now rewrite Hfilter. }
  split.
  - rewrite <- Hvisit in Hfind.
    destruct (redirect_found geoip now visit st' row [] _ Hfind) as (-> & _).
    apply truthy_Some in Hl0 as [Hl0 _]. rewrite Hlong in Hl0.
    injection Hl0 as <-. reflexivity.
  - intros Hnf. apply getAliasReport_not_found in Hnf. rewrite Hfind in Hnf. discriminate.
Qed.

(** ** What the tables hold *)

Lemma serve_url_analytics geoip c st :
  url_analytics (storage (serve geoip c st)) = url_analytics st
  \/ exists now req u,
       url_analytics (storage (serve geoip c st))
       = url_analytics st ++ [analyticsEvent geoip now req]
       /\ In u (urls st) /\ matches_alias (param_alias req) u.
Proof.
  destruct c as [req generated|now req|today a|t]; simpl.
  - left. apply shorten_tables.
  - assert (Hsnd : (findUrlQuery (param_alias req) st).2 = (pop_outage st).2)
      by (unfold findUrlQuery; now rewrite db_select_unfold).
    destruct (findUrlQuery (param_alias req) st) as [[msg|[|row rest]] st1] eqn:Hfind;
      simpl in Hsnd; subst st1.
    + left. unfold redirect. rewrite Hfind. apply pop_outage_tables.
    + left. unfold redirect. rewrite Hfind. apply pop_outage_tables.
    + pose proof (redirect_found geoip now req st row rest _ Hfind) as (_ & _ & Hins).
      apply findUrlQuery_rows_inv in Hfind as (Hrows & _ & _).
      assert (Hrow : row ∈ filter (matches_alias (param_alias req)) (urls st)).
      { destruct (filter _ (urls st)) as [|x l]; [discriminate|].
        simpl in Hrows. injection Hrows as -> _. left. }
      apply list_elem_of_filter in Hrow as [Hm Hin].
      destruct (insertAnalyticsQuery _ _) as [[msg|rows] st2]; destruct Hins as [_ Hev].
      * now left.
      * right. exists now, req, row. split; [exact Hev|].
        split; [now apply list_elem_of_In | exact Hm].
  - left. exact (proj1 (proj2 (proj1 (report_handlers_tables today a "" st)))).
  - left. exact (proj1 (proj2 (proj2 (report_handlers_tables 0%Z "" t st)))).
Qed.

(** In every state the service can reach, every stored event carries
    the alias of a registered row (its token or its custom alias), an IP
    address that is a non-empty string, and a geolocation. *)
Theorem stored_events_are_well_formed
  (geoip : string -> option Geo) (st : Storage) (e : UrlAnalytics.row) :
  reachable geoip st ->
  In e (url_analytics st) ->
  (exists u, In u (urls st) /\ matches_alias (UrlAnalytics.alias e) u)
  /\ (exists address, UrlAnalytics.ip_address e = Some address /\ address <> "")
  /\ (exists location, UrlAnalytics.geolocation e = Some location).
Proof.
  intros Hreach. revert e.
  induction Hreach as [schedule|c st Hreach IH]; intros e He; [destruct He|].
  assert (Hgrow : forall u, In u (urls st) -> In u (urls (storage (serve geoip c st)))).
  { intros u Hu. destruct (serve_urls geoip c st) as [->|(row & -> & _)]; [exact Hu|].
    apply in_app_iff. now left. }
  assert (Hold : In e (url_analytics st) ->
    (exists u, In u (urls (storage (serve geoip c st)))
               /\ matches_alias (UrlAnalytics.alias e) u)
    /\ (exists address, UrlAnalytics.ip_address e = Some address /\ address <> "")
    /\ (exists location, UrlAnalytics.geolocation e = Some location)).
  { intros Hin. destruct (IH e Hin) as ((u & Hu & Hm) & Hip & Hgeo).
    split; [exists u; split; [now apply Hgrow | exact Hm] | split; assumption]. }
  destruct (serve_url_analytics geoip c st) as [Hsame|(now & req & u & Happ & Hu & Hm)].
  - rewrite Hsame in He. exact (Hold He).
  - rewrite Happ in He. apply in_app_iff in He as [He|[<-|[]]]; [exact (Hold He)|].
    split; [exists u; split; [now apply Hgrow | exact Hm]|].
    unfold analyticsEvent. cbn. split; [|eauto].
    eexists. split; [reflexivity|].
    unfold or_else. destruct (truthy (ip req)) as [s|] eqn:Hs; simpl.
    + now apply truthy_Some in Hs.
    + destruct (truthy (remoteAddress req)) as [s|] eqn:Hr; simpl.
      * now apply truthy_Some in Hr.
      * discriminate.
Qed.

(** ** From stored events to the alias report *)

Lemma sum_list_with_add {A : Type} (f g : A -> nat) l :
  sum_list_with (fun x => f x + g x) l = sum_list_with f l + sum_list_with g l.
Proof. induction l as [|x l IH]; simpl; [reflexivity | rewrite IH; lia]. Qed.

Lemma sum_list_with_indicator {K : Type} `{EqDecision K} (k : K) ks :
  NoDup ks ->
  sum_list_with (fun k' => if decide (k = k') then 1 else 0) ks
  = if decide (k ∈ ks) then 1 else 0.
Proof.
  induction ks as [|x ks IH]; intros Hnd.
  - destruct (decide (k ∈ [])) as [Hin|_]; [inversion Hin | reflexivity].
  - apply NoDup_cons in Hnd as [Hx Hnd].
    change (sum_list_with (fun k' => if decide (k = k') then 1 else 0) (x :: ks))
      with ((if decide (k = x) then 1 else 0)
            + sum_list_with (fun k' => if decide (k = k') then 1 else 0) ks).
    rewrite (IH Hnd).
    destruct (decide (k = x)) as [->|Hne].
    + destruct (decide (x ∈ ks)); [contradiction|].
      destruct (decide (x ∈ x :: ks)) as [_|Hn]; [reflexivity | exfalso; apply Hn; left].
    + destruct (decide (k ∈ ks)) as [Hin|Hout],
        (decide (k ∈ x :: ks)) as [Hin'|Hout']; try reflexivity; exfalso.
      * apply Hout'. now right.
      * apply elem_of_cons in Hin' as [?|?]; contradiction.
Qed.

(** The groups of a GROUP BY partition the events. *)
Lemma group_by_sizes {K : Type} `{EqDecision K} (key : UrlAnalytics.row -> K) events :
  sum_list_with List.length (group_by key events) = List.length events.
Proof.
  unfold group_by. rewrite sum_list_with_map.
  assert (Hgen : forall ks,
    NoDup ks -> (forall e, e ∈ events -> key e ∈ ks) ->
    sum_list_with (fun k => List.length (filter (fun e => key e = k) events)) ks
    = List.length events).
  { induction events as [|e events IH]; intros ks Hnd Hall.
    - clear. induction ks as [|k ks IHks]; [reflexivity | exact IHks].
    - transitivity
        (sum_list_with (fun k => (if decide (key e = k) then 1 else 0)
                                 + List.length (filter (fun e => key e = k) events)) ks).
      + clear. induction ks as [|k ks IHks]; [reflexivity|].
        cbn [sum_list_with]. rewrite IHks. f_equal. rewrite filter_cons.
        destruct (decide (key e = k)); reflexivity.
      + rewrite sum_list_with_add, (sum_list_with_indicator (key e) ks Hnd).
        rewrite decide_True by (apply Hall; left).
        rewrite (IH ks Hnd) by (intros x Hx; apply Hall; now right).
        reflexivity. }
  apply Hgen; [apply NoDup_remove_dups|].
  intros e He. apply elem_of_remove_dups, list_elem_of_In, in_map.
  now apply list_elem_of_In.
Qed.

Lemma select_group_clicks gs :
  sum_list_with total_clicks (omap select_group gs) = sum_list_with List.length gs.
Proof.
  induction gs as [|g gs IH]; [reflexivity|].
  destruct g as [|e g].
  - exact IH.
  - simpl. do 2 f_equal. exact IH.
Qed.

(** Every tuple of a grouped query stands for stored events: it carries
    the alias, date and user agent of one of them and no [ip_address]. *)
Lemma grouped_row_origin {K : Type} `{EqDecision K} (key : UrlAnalytics.row -> K)
  events record :
  In record (omap select_group (group_by key events)) ->
  ip_address record = None
  /\ exists e,
       In e events
       /\ alias record = UrlAnalytics.alias e
       /\ click_date record = UrlAnalytics.timestamp e
       /\ user_agent record = UrlAnalytics.user_agent e.
Proof.
  intros Hin. apply list_elem_of_In, list_elem_of_omap in Hin as (g & Hg & Hsel).
  destruct g as [|e g]; [discriminate|]. injection Hsel as <-.
  split; [reflexivity|]. exists e. split; [|auto].
  unfold group_by in Hg. apply list_elem_of_In, in_map_iff in Hg as (k & Hk & _).
  assert (He : e ∈ filter (fun x => key x = k) events) by (rewrite Hk; left).
  apply list_elem_of_filter in He as [_ He]. now apply list_elem_of_In.
Qed.

Lemma undefined_addresses_count_once rows :
  Forall (fun record => ip_address record = None) rows ->
  uniqueUsersOf rows = match rows with [] => 0 | _ :: _ => 1 end.
Proof.
  intros Hall. unfold uniqueUsersOf.
  destruct rows as [|r rows]; [reflexivity|].
  assert (Hset : (list_to_set (map ip_address (r :: rows)) : gset (option string))
                 = {[ None ]}).
  { apply set_eq. intros x. rewrite elem_of_list_to_set, elem_of_singleton.
    rewrite list_elem_of_In, in_map_iff. split.
    - intros (y & <- & Hy). apply list_elem_of_In in Hy.
      exact (proj1 (Forall_forall _ _) Hall y Hy).
    - intros ->. exists r. split; [|now left].
      exact (proj1 (Forall_forall _ _) Hall r ltac:(left)). }
  rewrite Hset. apply size_singleton.
Qed.

(** The alias report of a registered alias whose stored events all have
    a user agent, when both queries are answered. *)
Lemma getAliasReport_stored today a st :
  answered_twice st ->
  (exists u, In u (urls st) /\ matches_alias a u) ->
  Forall (fun e => is_Some (UrlAnalytics.user_agent e)) (events_of a st) ->
  exists rows report,
    response (getAliasReport today a st) = Json 200 (AliasReportBody report)
    /\ aliasReport today rows = inr report
    /\ agents_are_strings rows
    /\ sum_list_with total_clicks rows = List.length (events_of a st)
    /\ Forall (fun record => ip_address record = None) rows
    /\ (events_of a st = [] -> rows = []).
Proof.
  intros [Hans1 Hans2] (u & Hu & Hm) Hagents.
  set (key := fun e => (UrlAnalytics.alias e, UrlAnalytics.timestamp e,
                        UrlAnalytics.user_agent e)).
  set (rows := omap select_group (group_by key (events_of a st))).
  assert (Hfind : exists row rest,
            findUrlQuery a st = (QRows (row :: rest), (pop_outage st).2)).
  { rewrite findUrlQuery_answered by exact Hans1.
    destruct (take 1 (filter (matches_alias a) (urls st))) as [|row rest] eqn:Ht; [|eauto].
    exfalso. apply (proj1 (take1_filter_nil _ _) Ht u); [now apply list_elem_of_In | exact Hm]. }
  destruct Hfind as (row & rest & Hfind).
  assert (Hq : analyticsQuery a (pop_outage st).2
               = (QRows rows, (pop_outage (pop_outage st).2).2)).
  { unfold analyticsQuery. rewrite db_select_answered by exact Hans2.
    rewrite (proj2 (pop_outage_tables _)), (proj2 (pop_outage_tables st)). reflexivity. }
  assert (Hstr : agents_are_strings rows).
  { apply Forall_forall. intros record Hrec. apply list_elem_of_In in Hrec.
    destruct (grouped_row_origin key _ _ Hrec) as (_ & e & He & _ & _ & ->).
    apply (proj1 (Forall_forall _ _) Hagents). now apply list_elem_of_In. }
  destruct (aliasReport_runs today rows Hstr) as (osm & dvm & _ & _ & Hrep).
  exists rows. eexists.
  split; [|split; [exact Hrep | split; [exact Hstr | split; [|split]]]].
  - rewrite (getAliasReport_found _ _ _ _ _ _ _ _ Hfind Hq). now rewrite Hrep.
  - unfold rows. rewrite select_group_clicks. apply group_by_sizes.
  - apply Forall_forall. intros record Hrec. apply list_elem_of_In in Hrec.
    now destruct (grouped_row_origin key _ _ Hrec) as (-> & _).
  - unfold rows. now intros ->.
Qed.

(** For a registered alias whose stored events all have a user agent,
    the report that is sent counts every stored event of the alias once:
    its totalClicks is the number of those events, and so is the sum of
    the clicks of its OS buckets. *)
Theorem stored_events_are_all_counted (today : Moment.Date) (a : string) (st : Storage) :
  answered_twice st ->
  (exists u, In u (urls st) /\ matches_alias a u) ->
  Forall (fun e => is_Some (UrlAnalytics.user_agent e)) (events_of a st) ->
  exists report,
    response (getAliasReport today a st) = Json 200 (AliasReportBody report)
    /\ AliasReport.totalClicks report = List.length (events_of a st)
    /\ sum_list_with OsEntry.uniqueClicks (AliasReport.osType report)
       = List.length (events_of a st).
Proof.
  intros Hans Hreg Hagents.
  destruct (getAliasReport_stored today a st Hans Hreg Hagents)
    as (rows & report & Hresp & Hrep & Hstr & Hsum & _ & _).
  exists report. split; [exact Hresp|].
  destruct (aliasReport_runs today rows Hstr) as (osm & dvm & Hos & _ & Hrep').
  rewrite Hrep in Hrep'. injection Hrep' as ->.
  cbn [AliasReport.totalClicks AliasReport.osType].
  rewrite totalClicksOf_sum, Hsum. split; [reflexivity|].
  destruct (bucket_loop_state osNameOf rows Hstr) as (m & Hrun & _ & _ & Hclicks).
  rewrite Hos in Hrun. injection Hrun as <-.
  unfold osTypeArrayOf. rewrite sum_list_with_map.
  change (sum_list_with Bucket.uniqueClicks (JsObject.values osm)
          = List.length (events_of a st)).
  now rewrite (sum_values Bucket.uniqueClicks osm), Hclicks.
Qed.

(** On stored events uniqueUsers does not count addresses: the grouped
    query selects no ip_address, so the report that is sent has
    uniqueUsers 0 when the alias has no event and 1 as soon as it has
    one, and every OS and device bucket has uniqueUsers 1. *)
Theorem stored_unique_users_is_at_most_one
  (today : Moment.Date) (a : string) (st : Storage) :
  answered_twice st ->
  (exists u, In u (urls st) /\ matches_alias a u) ->
  Forall (fun e => is_Some (UrlAnalytics.user_agent e)) (events_of a st) ->
  exists report,
    response (getAliasReport today a st) = Json 200 (AliasReportBody report)
    /\ AliasReport.uniqueUsers report
       = match events_of a st with [] => 0 | _ :: _ => 1 end
    /\ (forall e, In e (AliasReport.osType report) -> OsEntry.uniqueUsers e = 1)
    /\ (forall e, In e (AliasReport.deviceType report) -> DeviceEntry.uniqueUsers e = 1).
Proof.
  intros Hans Hreg Hagents.
  destruct (getAliasReport_stored today a st Hans Hreg Hagents)
    as (rows & report & Hresp & Hrep & Hstr & Hsum & Hnone & Hempty).
  exists report. split; [exact Hresp|].
  destruct (aliasReport_runs today rows Hstr) as (osm & dvm & Hos & Hdv & Hrep').
  rewrite Hrep in Hrep'. injection Hrep' as ->.
  cbn [AliasReport.uniqueUsers AliasReport.osType AliasReport.deviceType].
  assert (Hbucket : forall classify typeMap data,
    forEach (bucketStep classify) rows [] = inr typeMap ->
    In data (JsObject.values typeMap) ->
    size (Bucket.uniqueUsers data) = 1).
  { intros classify typeMap data Hrun Hdata.
    pose proof (bucket_loop_values classify rows typeMap data Hstr Hrun Hdata) as Hb.
    destruct (filter _ rows) as [|r l] eqn:Hf; [discriminate|].
    injection Hb as <-. cbn [Bucket.uniqueUsers].
    assert (Hl : Forall (fun record => ip_address record = None) (r :: l)).
    { apply Forall_forall. intros x Hx. rewrite <- Hf in Hx.
      apply list_elem_of_filter in Hx as [_ Hx].
      exact (proj1 (Forall_forall _ _) Hnone x Hx). }
    exact (undefined_addresses_count_once (r :: l) Hl). }
  split; [|split].
  - rewrite (undefined_addresses_count_once rows Hnone).
    destruct rows as [|r rows]; simpl in Hsum.
    + now destruct (events_of a st).
    + destruct (events_of a st); [|reflexivity].
      discriminate (Hempty eq_refl).
  - intros e He. unfold osTypeArrayOf in He.
    apply in_map_iff in He as (data & <- & Hdata). cbn.
    exact (Hbucket osNameOf osm data Hos Hdata).
  - intros e He. unfold deviceTypeArrayOf in He.
    apply in_map_iff in He as (data & <- & Hdata). cbn.
    exact (Hbucket deviceNameOf dvm data Hdv Hdata).
Qed.

(** ** The order of the report sequences *)

Lemma uint_of_string_dash pre post :
  NilEmpty.uint_of_string (pre ++ String "-" post)%string = None.
Proof.
  induction pre as [|c pre IH]; simpl.
  - now destruct (NilEmpty.uint_of_string post).
  - now rewrite IH.
Qed.

Lemma array_index_dash k : includes k "-" = true -> JsObject.array_index k = None.
Proof.
  intros Hk. apply includes_spec in Hk as (pre & post & ->).
  unfold JsObject.array_index, NilZero.uint_of_string.
  change (pre ++ "-" ++ post)%string with (pre ++ String "-" post)%string.
  rewrite uint_of_string_dash. now destruct (pre ++ String "-" post)%string.
Qed.

Lemma array_index_format d : JsObject.array_index (Moment.format d) = None.
Proof.
  apply array_index_dash. unfold Moment.format.
  destruct (Moment.civil d) as [[y m] dd]. apply includes_spec. eexists _, _. reflexivity.
Qed.

Lemma filter_none {A : Type} (P : A -> Prop) `{forall x, Decision (P x)} (l : list A) :
  (forall x, In x l -> ~ P x) -> filter P l = [].
Proof.
  induction l as [|x l IH]; intros Hall; [reflexivity|].
  rewrite filter_cons, decide_False by (apply Hall; now left).
  apply IH. intros y Hy. apply Hall. now right.
Qed.

Lemma filter_all {A : Type} (P : A -> Prop) `{forall x, Decision (P x)} (l : list A) :
  (forall x, In x l -> P x) -> filter P l = l.
Proof.
  induction l as [|x l IH]; intros Hall; [reflexivity|].
  rewrite filter_cons, decide_True by (apply Hall; now left).
  f_equal. apply IH. intros y Hy. apply Hall. now right.
Qed.

(** An object without array-index keys is enumerated in creation order. *)
Lemma entries_creation_order {V : Type} (o : JsObject.t V) :
  (forall e, In e o -> JsObject.array_index e.1 = None) -> JsObject.entries o = o.
Proof.
  intros Hall. unfold JsObject.entries.
  rewrite (filter_none (fun e : string * V => is_Some (JsObject.array_index e.1)) o),
          (filter_all (fun e : string * V => ~ is_Some (JsObject.array_index e.1)) o).
  - reflexivity.
  - intros e He. rewrite (Hall e He). intros [? [=]].
  - intros e He. rewrite (Hall e He). intros [? [=]].
Qed.

Lemma first_occurrences_snoc l k :
  first_occurrences (l ++ [k])
  = if decide (k ∈ first_occurrences l) then first_occurrences l
    else first_occurrences l ++ [k].
Proof. unfold first_occurrences. now rewrite fold_left_app. Qed.

Lemma keys_put_first_occurrences {V : Type} k (v : V) (o : JsObject.t V) l :
  map fst o = first_occurrences l ->
  map fst (JsObject.put k v o) = first_occurrences (l ++ [k]).
Proof.
  intros Hkeys. rewrite keys_put, first_occurrences_snoc, <- Hkeys.
  pose proof (get_None_notin k o) as Hnone.
  destruct (JsObject.get k o) as [x|].
  - rewrite decide_True; [reflexivity|]. apply list_elem_of_In.
    destruct (in_dec string_dec k (map fst o)) as [Hin|Hout]; [exact Hin|].
    apply Hnone in Hout. discriminate.
  - rewrite decide_False; [reflexivity|].
    intros Hin. apply list_elem_of_In in Hin. exact (proj1 Hnone eq_refl Hin).
Qed.

Lemma clicksByDate_loop_order sevenDaysAgo rows :
  map fst (fold_left (clicksByDateStep sevenDaysAgo) rows [])
  = first_occurrences
      (map (fun record => Moment.format (click_date record))
         (filter (fun record => geb (Moment.format (click_date record)) sevenDaysAgo = true)
            rows)).
Proof.
  induction rows as [|r rows IH] using rev_ind; [reflexivity|].
  rewrite fold_left_app, filter_snoc. cbn [fold_left]. unfold clicksByDateStep at 1.
  destruct (geb (Moment.format (click_date r)) sevenDaysAgo) eqn:Hgeb.
  - rewrite decide_True by reflexivity. rewrite map_app. cbn [map].
    now apply keys_put_first_occurrences.
  - rewrite decide_False by discriminate. now rewrite app_nil_r.
Qed.

Lemma bucket_loop_order classify rows :
  agents_are_strings rows ->
  exists typeMap,
    forEach (bucketStep classify) rows [] = inr typeMap
    /\ map fst typeMap
       = first_occurrences
           (map (fun record => classify (toLowerCase (default "" (user_agent record))))
              rows).
Proof.
  induction rows as [|r rows IH] using rev_ind; intros Hstr.
  - exists []. split; reflexivity.
  - apply agents_are_strings_app in Hstr as [Hrows Hr].
    destruct (IH Hrows) as (m & Hrun & Hkeys).
    apply (proj1 (Forall_singleton _ _)) in Hr. destruct Hr as [ua Hua].
    rewrite forEach_app, Hrun. cbn [forEach]. unfold bucketStep. rewrite Hua.
    eexists. split; [reflexivity|].
    rewrite map_app. cbn [map]. rewrite Hua. cbn [default].
    now apply keys_put_first_occurrences.
Qed.

Lemma bucket_names_are_keys classify rows typeMap :
  agents_are_strings rows ->
  forEach (bucketStep classify) rows [] = inr typeMap ->
  map (fun e : string * Bucket.t => Bucket.name e.2) typeMap = map fst typeMap.
Proof.
  intros Hstr Hrun.
  destruct (bucket_loop_state classify rows Hstr) as (m & Hrun' & Hnd & Hget & _).
  rewrite Hrun in Hrun'. injection Hrun' as <-.
  apply map_ext_in. intros [k d] Hin. apply in_get_Some in Hin; [|exact Hnd].
  rewrite Hget in Hin. destruct (filter _ rows); [discriminate|].
  simpl in Hin. now injection Hin as <-.
Qed.

Lemma bucket_names_in_order classify rows typeMap :
  (forall s, JsObject.array_index (classify s) = None) ->
  agents_are_strings rows ->
  forEach (bucketStep classify) rows [] = inr typeMap ->
  map Bucket.name (JsObject.values typeMap)
  = first_occurrences
      (map (fun record => classify (toLowerCase (default "" (user_agent record)))) rows).
Proof.
  intros Hclass Hstr Hrun.
  destruct (bucket_loop_order classify rows Hstr) as (m & Hrun' & Hkeys).
  rewrite Hrun in Hrun'. injection Hrun' as <-.
  pose proof (bucket_names_are_keys classify rows typeMap Hstr Hrun) as Hnames.
  unfold JsObject.values. rewrite entries_creation_order.
  - rewrite map_map. rewrite <- Hkeys, <- Hnames. reflexivity.
  - intros [k d] Hin. cbn [fst].
    assert (Hk : In k (map fst typeMap)) by (apply in_map_iff; now exists (k, d)).
    rewrite Hkeys in Hk.
    assert (Himg : forall l x, In x (first_occurrences l) -> In x l).
    { clear. intros l. induction l as [|y l IH] using rev_ind; intros x Hx; [destruct Hx|].
      rewrite first_occurrences_snoc in Hx. apply in_app_iff.
      destruct (decide _); [left; now apply IH|].
      apply in_app_iff in Hx as [Hx|Hx]; [left; now apply IH | now right]. }
    apply Himg in Hk. apply in_map_iff in Hk as (r & <- & _). apply Hclass.
Qed.

(** The sequences of an alias report are in the order of first
    encounter, not sorted: the dates of clicksByDate are the formatted
    dates of the tuples that pass the seven-day bound, each at its first
    occurrence, and the names of osType and deviceType are the buckets of
    the tuples in the order in which they first occur. *)
Theorem report_sequences_in_first_seen_order (today : Moment.Date) (rows : list Row) :
  agents_are_strings rows ->
  exists report,
    aliasReport today rows = inr report
    /\ map ClickCount.date (AliasReport.clicksByDate report)
       = first_occurrences
           (map (fun record => Moment.format (click_date record))
              (filter (fun record =>
                         geb (Moment.format (click_date record))
                           (Moment.format (Moment.subtract_days 7 today)) = true)
                 rows))
    /\ map OsEntry.osName (AliasReport.osType report)
       = first_occurrences (map osBucketOf rows)
    /\ map DeviceEntry.deviceName (AliasReport.deviceType report)
       = first_occurrences (map deviceBucketOf rows).
Proof.
  intros Hstr.
  destruct (aliasReport_runs today rows Hstr) as (osm & dvm & Hos & Hdv & ->).
  eexists. split; [reflexivity|].
  cbn [AliasReport.clicksByDate AliasReport.osType AliasReport.deviceType].
  split; [|split].
  - unfold clicksByDateArrayOf, clicksByDateOf.
    set (seven := Moment.format (Moment.subtract_days 7 today)).
    pose proof (clicksByDate_loop_order seven rows) as Hkeys.
    pose proof (clicksByDate_loop_state seven rows) as [_ Hget].
    set (o := fold_left (clicksByDateStep seven) rows []) in *.
    rewrite entries_creation_order.
    + rewrite map_map. rewrite <- Hkeys. apply map_ext. now intros [d c].
    + intros [d c] Hin. cbn [fst].
      assert (Hlook : JsObject.get d o <> None).
      { intros Hnone. apply get_None_notin in Hnone. apply Hnone.
        apply in_map_iff. now exists (d, c). }
      rewrite Hget in Hlook. unfold clicks_entry in Hlook.
      destruct (filter (fun record => Moment.format (click_date record) = d) rows)
        as [|r l] eqn:Hf; [exfalso; apply Hlook; reflexivity|].
      assert (Hr : r ∈ filter (fun record => Moment.format (click_date record) = d) rows)
        by (rewrite Hf; left).
      apply list_elem_of_filter in Hr as [<- _]. apply array_index_format.
  - unfold osTypeArrayOf. rewrite map_map.
    change (map Bucket.name (JsObject.values osm) = first_occurrences (map osBucketOf rows)).
    apply bucket_names_in_order; [|exact Hstr | exact Hos].
    intros s. unfold osNameOf.
    repeat (destruct (includes s _); [reflexivity|]); reflexivity.
  - unfold deviceTypeArrayOf. rewrite map_map.
    change (map Bucket.name (JsObject.values dvm)
            = first_occurrences (map deviceBucketOf rows)).
    apply bucket_names_in_order; [|exact Hstr | exact Hdv].
    intros s. unfold deviceNameOf. destruct (_ || _); reflexivity.
Qed.

(** ** The topic roll-up, continued *)

(** One pass of the topic loop over the date dictionary adds the clicks
    of the tuple to the entry of its date and touches no other entry. *)
Lemma topic_date_step (clicksByDate : JsObject.t nat) (d : string) (n : nat) :
  let clicksByDate0 :=
    match default 0 (JsObject.get d clicksByDate) with
    | O => JsObject.put d 0 clicksByDate
    | S _ => clicksByDate
    end in
  let clicksByDate' :=
    JsObject.put d (default 0 (JsObject.get d clicksByDate0) + n) clicksByDate0 in
  JsObject.get d clicksByDate' = Some (default 0 (JsObject.get d clicksByDate) + n)
  /\ (forall d', d <> d' -> JsObject.get d' clicksByDate' = JsObject.get d' clicksByDate)
  /\ (NoDup (map fst clicksByDate) -> NoDup (map fst clicksByDate')).
Proof.
  cbv zeta. destruct (JsObject.get d clicksByDate) as [[|m]|] eqn:Hget; simpl.
  - rewrite !get_put_eq. simpl. split; [reflexivity|]. split.
    + intros d' Hne. now rewrite !get_put_ne.
    + intros Hnd. now do 2 apply NoDup_put.
  - rewrite get_put_eq, Hget. simpl. split; [reflexivity|]. split.
    + intros d' Hne. now rewrite get_put_ne.
    + intros Hnd. now apply NoDup_put.
  - rewrite !get_put_eq. simpl. split; [reflexivity|]. split.
    + intros d' Hne. now rewrite !get_put_ne.
    + intros Hnd. now do 2 apply NoDup_put.
Qed.

Lemma topic_loop_dates rows :
  no_inherited_alias rows ->
  exists acc,
    forEach topicStep rows
      {| TopicAcc.totalClicks := 0; TopicAcc.uniqueUsersSet := ∅;
         TopicAcc.clicksByDate := []; TopicAcc.urlsAnalytics := [] |} = inr acc
    /\ NoDup (map fst (TopicAcc.clicksByDate acc))
    /\ forall d,
         JsObject.get d (TopicAcc.clicksByDate acc)
         = match filter (fun record => Moment.format (click_date record) = d) rows with
           | [] => None
           | _ :: _ => Some (clicks_on d rows)
           end.
Proof.
  induction rows as [|r rows IH] using rev_ind; intros Hfree.
  - eexists. split; [reflexivity|]. split; [constructor | reflexivity].
  - apply Forall_app in Hfree as [Hrows Hr].
    apply (proj1 (Forall_singleton _ _)) in Hr.
    destruct (IH Hrows) as (acc & Hrun & Hnd & Hget).
    rewrite forEach_app, Hrun. cbn [forEach]. unfold topicStep.
    pose proof (topic_date_step (TopicAcc.clicksByDate acc)
                  (Moment.format (click_date r)) (total_clicks r)) as (Hd & Hother & Hnd').
    destruct (JsObject.get (alias r) (TopicAcc.urlsAnalytics acc)) as [data|];
      [|rewrite decide_False by (intros Hin; apply Hr; now apply list_elem_of_In)];
      (eexists; split; [reflexivity|]; cbn [TopicAcc.clicksByDate];
       split; [exact (Hnd' Hnd)|];
       intros d; unfold clicks_on; rewrite filter_snoc;
       destruct (decide (Moment.format (click_date r) = d)) as [<-|Hne];
       [ rewrite Hd, Hget; unfold clicks_on;
         destruct (filter _ rows) as [|x l]; simpl; f_equal;
         rewrite ?sum_list_with_app; simpl; lia
       | rewrite (Hother d Hne), Hget, app_nil_r; reflexivity ]).
Qed.

(** The date series of the topic report has no seven-day window: it has
    one entry per date of the tuples, however old, with the clicks of the
    tuples of that date. *)
Theorem topic_dates_have_no_window (urlsResults : list Urls.row) (rows : list Row) :
  no_inherited_alias rows ->
  (forall record, In record rows -> In (alias record) (map Urls.short_url urlsResults)) ->
  exists report,
    topicReport urlsResults rows = inr report
    /\ NoDup (map ClickCount.date (TopicReport.clicksByDate report))
    /\ (forall record,
          In record rows ->
          In {| ClickCount.date := Moment.format (click_date record);
                ClickCount.clickCount :=
                  clicks_on (Moment.format (click_date record)) rows |}
             (TopicReport.clicksByDate report))
    /\ (forall e,
          In e (TopicReport.clicksByDate report) ->
          ClickCount.clickCount e = clicks_on (ClickCount.date e) rows
          /\ exists record,
               In record rows /\ Moment.format (click_date record) = ClickCount.date e).
Proof.
  intros Hfree Htokens.
  destruct (topicReport_regular urlsResults rows Hfree Htokens) as (report & Hrep & _).
  destruct (topic_loop_dates rows Hfree) as (acc & Hrun & Hnd & Hget).
  exists report. split; [exact Hrep|].
  assert (Hdates : TopicReport.clicksByDate report
                   = clicksByDateArrayOf (TopicAcc.clicksByDate acc)).
  { unfold topicReport in Hrep. rewrite Hrun in Hrep.
    destruct (mapThrowing _ _); [discriminate|]. now injection Hrep as <-. }
  rewrite Hdates. set (o := TopicAcc.clicksByDate acc) in *.
  split; [|split].
  - assert (Heq : map ClickCount.date (clicksByDateArrayOf o) = JsObject.keys o).
    { unfold clicksByDateArrayOf, JsObject.keys. rewrite map_map.
      apply map_ext. now intros [d c]. }
    rewrite Heq. now apply NoDup_keys.
  - intros record Hin. apply in_clicksByDateArrayOf.
    cbn [ClickCount.date ClickCount.clickCount].
    apply get_Some_in. rewrite Hget.
    assert (Hf : record ∈ filter
      (fun r => Moment.format (click_date r) = Moment.format (click_date record)) rows).
    { apply list_elem_of_filter. split; [reflexivity | now apply list_elem_of_In]. }
    destruct (filter _ rows) as [|a l] eqn:Hfl; [inversion Hf | reflexivity].
  - intros e He. apply in_clicksByDateArrayOf in He.
    apply in_get_Some in He; [|exact Hnd]. rewrite Hget in He.
    destruct (filter _ rows) as [|a l] eqn:Hf; [discriminate|].
    injection He as <-. split; [reflexivity|].
    exists a. assert (Ha : a ∈ filter
      (fun record => Moment.format (click_date record) = ClickCount.date e) rows)
      by (rewrite Hf; left).
    apply list_elem_of_filter in Ha as [Hd Ha]. split; [now apply list_elem_of_In | exact Hd].
Qed.

(** ** Reports as functions of the tables *)

(** With both queries answered, the response of the alias report is
    determined by the two tables. *)
Lemma getAliasReport_answered_twice today a st :
  answered_twice st ->
  response (getAliasReport today a st)
  = match take 1 (filter (matches_alias a) (urls st)) with
    | [] => NotFound
    | _ :: _ =>
        match aliasReport today
                (omap select_group
                   (group_by (fun e => (UrlAnalytics.alias e, UrlAnalytics.timestamp e,
                                        UrlAnalytics.user_agent e))
                      (events_of a st))) with
        | inl e => Uncaught e
        | inr report => Json 200 (AliasReportBody report)
        end
    end.
Proof.
  intros [Hans1 Hans2]. unfold getAliasReport.
  rewrite (findUrlQuery_answered a st Hans1).
  destruct (take 1 (filter (matches_alias a) (urls st))); [reflexivity|].
  unfold analyticsQuery. rewrite db_select_answered by exact Hans2.
  rewrite (proj2 (pop_outage_tables _)), (proj2 (pop_outage_tables st)).
  fold (events_of a st). now destruct (aliasReport today _).
Qed.

Lemma plain_tokens_forallb t st :
  plain_tokens t st ->
  forallb plain_literal
    (map Urls.short_url (filter (fun u => Urls.topic u = Some t) (urls st))) = true.
Proof.
  intros Hplain. apply forallb_forall. intros a Ha.
  apply in_map_iff in Ha as (u & <- & Hu). apply list_elem_of_In in Hu.
  apply list_elem_of_filter in Hu as [Ht Hu]. apply Hplain; [now apply list_elem_of_In | exact Ht].
Qed.

(** With both queries answered and plain tokens, the response of the
    topic report is determined by the two tables. *)
Lemma getTopicReport_answered_twice t st :
  answered_twice st ->
  plain_tokens t st ->
  response (getTopicReport t st)
  = match filter (fun u => Urls.topic u = Some t) (urls st) with
    | [] => TopicNotFound
    | (_ :: _) as urlsResults =>
        match topicReport urlsResults
                (omap select_group
                   (group_by (fun e => (UrlAnalytics.alias e, UrlAnalytics.timestamp e))
                      (events_of_topic t st))) with
        | inl e => Uncaught e
        | inr report => Json 200 (TopicReportBody report)
        end
    end.
Proof.
  intros [Hans1 Hans2] Hplain. apply plain_tokens_forallb in Hplain.
  unfold getTopicReport, topicUrlsQuery.
  rewrite db_select_answered by exact Hans1.
  rewrite (proj1 (pop_outage_tables st)). unfold events_of_topic.
  destruct (filter (fun u => Urls.topic u = Some t) (urls st)) as [|u l]; [reflexivity|].
  rewrite topicAnalyticsQuery_plain by exact Hplain.
  rewrite db_select_answered by exact Hans2.
  rewrite (proj2 (pop_outage_tables _)), (proj2 (pop_outage_tables st)).
  now destruct (topicReport _ _).
Qed.

(** With a token that is not a plain literal, the answer to the grouped
    query is what the collaborator makes of the pasted text; when it
    rejects the text the topic report is the 500 'Error fetching
    analytics data'. *)
Lemma getTopicReport_pasted_text_rejected t st message :
  answered_twice st ->
  filter (fun u => Urls.topic u = Some t) (urls st) <> [] ->
  forallb plain_literal
    (map Urls.short_url (filter (fun u => Urls.topic u = Some t) (urls st))) = false ->
  pasted_sql st
    (quoted_list (map Urls.short_url (filter (fun u => Urls.topic u = Some t) (urls st))))
  = QError message ->
  response (getTopicReport t st) = Json 500 (ErrorBody "Error fetching analytics data").
Proof.
  intros [Hans1 Hans2] Hsome Hquote Hreject.
  unfold getTopicReport, topicUrlsQuery.
  rewrite db_select_answered by exact Hans1.
  rewrite (proj1 (pop_outage_tables st)).
  destruct (filter (fun u => Urls.topic u = Some t) (urls st)) as [|u l] eqn:Hf;
    [now contradiction Hsome|].
  unfold topicAnalyticsQuery.
  apply pop_outage_answered in Hans2.
  destruct (pop_outage (pop_outage st).2) as [down st2] eqn:Hpop.
  simpl in Hans2. subst down.
  change (map Urls.short_url (u :: l)) with (Urls.short_url u :: map Urls.short_url l) in *.
  rewrite Hquote.
  assert (Hread : pasted_sql st2 = pasted_sql st).
  { pose proof (pop_outage_pasted (pop_outage st).2) as Hp.
    rewrite Hpop in Hp. simpl in Hp. now rewrite Hp, pop_outage_pasted. }
  rewrite Hread, Hreject. reflexivity.
Qed.

(** ** From stored events to the topic report *)

Lemma grouped_row_exists {K : Type} `{EqDecision K} (key : UrlAnalytics.row -> K)
  events e :
  In e events ->
  (forall x y, key x = key y -> UrlAnalytics.alias x = UrlAnalytics.alias y) ->
  exists record,
    In record (omap select_group (group_by key events))
    /\ alias record = UrlAnalytics.alias e.
Proof.
  intros He Hkey. apply list_elem_of_In in He.
  destruct (group_by_member key events e He) as (g & Hg & Heg & Hsame).
  destruct g as [|x g]; [inversion Heg|].
  eexists. split.
  - apply list_elem_of_In, list_elem_of_omap. exists (x :: g). split; [exact Hg | reflexivity].
  - cbn. apply Hkey, Hsame. left.
Qed.

(** The topic report of a topic that has rows, when both queries are
    answered, every token of the topic is a plain literal (no quote, no
    backslash: the tokens are pasted into the statement unescaped) and no
    stored event of the topic carries an inherited name:
    totalClicks is the number of stored events of the tokens of the
    topic, urls lists exactly the tokens that have a stored event, each
    once, and uniqueUsers is 1 as soon as there is an event. *)
Theorem topic_report_of_stored_events (t : string) (st : Storage) :
  answered_twice st ->
  plain_tokens t st ->
  (exists u, In u (urls st) /\ Urls.topic u = Some t) ->
  Forall (fun e => ~ In (UrlAnalytics.alias e) JsObject.prototype_keys)
    (events_of_topic t st) ->
  exists report,
    response (getTopicReport t st) = Json 200 (TopicReportBody report)
    /\ TopicReport.totalClicks report = List.length (events_of_topic t st)
    /\ NoDup (map UrlEntry.shortUrl (TopicReport.urls report))
    /\ (forall a,
          In a (map UrlEntry.shortUrl (TopicReport.urls report))
          <-> exists e, In e (events_of_topic t st) /\ UrlAnalytics.alias e = a)
    /\ (forall a,
          In a (map UrlEntry.shortUrl (TopicReport.urls report)) ->
          exists u, In u (urls st) /\ Urls.topic u = Some t /\ Urls.short_url u = a)
    /\ TopicReport.uniqueUsers report
       = match events_of_topic t st with [] => 0 | _ :: _ => 1 end.
Proof.
  intros Hans Hplain (u & Hu & Ht) Hfree.
  rewrite (getTopicReport_answered_twice t st Hans Hplain).
  set (key := fun e => (UrlAnalytics.alias e, UrlAnalytics.timestamp e)).
  set (events := events_of_topic t st) in *.
  set (rows := omap select_group (group_by key events)).
  assert (Hin : u ∈ filter (fun u => Urls.topic u = Some t) (urls st))
    by (apply list_elem_of_filter; split; [exact Ht | now apply list_elem_of_In]).
  assert (Htoken : forall e, In e events ->
            In (UrlAnalytics.alias e)
               (map Urls.short_url (filter (fun u => Urls.topic u = Some t) (urls st)))).
  { intros e He. apply list_elem_of_In in He.
    unfold events, events_of_topic in He. apply list_elem_of_filter in He as [He _].
    now apply list_elem_of_In. }
  destruct (filter (fun u => Urls.topic u = Some t) (urls st)) as [|u0 l] eqn:Hf;
    [inversion Hin|].
  assert (Hrows_free : no_inherited_alias rows).
  { apply Forall_forall. intros record Hrec. apply list_elem_of_In in Hrec.
    destruct (grouped_row_origin key _ _ Hrec) as (_ & e & He & -> & _).
    apply (proj1 (Forall_forall _ _) Hfree). now apply list_elem_of_In. }
  assert (Hrows_tok : forall record, In record rows ->
            In (alias record) (map Urls.short_url (u0 :: l))).
  { intros record Hrec.
    destruct (grouped_row_origin key _ _ Hrec) as (_ & e & He & -> & _). now apply Htoken. }
  destruct (topicReport_regular (u0 :: l) rows Hrows_free Hrows_tok)
    as (report & -> & Htotal & Husers & Hnd & Hnames & _).
  exists report. split; [reflexivity|].
  assert (Hnone : Forall (fun record => ip_address record = None) rows).
  { apply Forall_forall. intros record Hrec. apply list_elem_of_In in Hrec.
    now destruct (grouped_row_origin key _ _ Hrec) as (-> & _). }
  assert (Hsum : sum_list_with total_clicks rows = List.length events)
    by (unfold rows; rewrite select_group_clicks; apply group_by_sizes).
  assert (Halias : forall a,
            In a (map alias rows) <-> exists e, In e events /\ UrlAnalytics.alias e = a).
  { intros a. split.
    - intros Ha. apply in_map_iff in Ha as (record & <- & Hrec).
      destruct (grouped_row_origin key _ _ Hrec) as (_ & e & He & -> & _). eauto.
    - intros (e & He & <-).
      destruct (grouped_row_exists key events e He) as (record & Hrec & <-).
      + unfold key. now intros x y [= -> _].
      + apply in_map. exact Hrec. }
  split; [now rewrite Htotal|]. split; [exact Hnd|]. split; [|split].
  - intros a. now rewrite Hnames.
  - intros a Ha. apply Hnames, Halias in Ha as (e & He & <-).
    apply Htoken in He. apply in_map_iff in He as (v & Hv & Hvin).
    exists v.
    assert (Hv' : v ∈ filter (fun u => Urls.topic u = Some t) (urls st))
      by (rewrite Hf; now apply list_elem_of_In).
    apply list_elem_of_filter in Hv' as [Hvt Hvu].
    split; [now apply list_elem_of_In | split; assumption].
  - rewrite Husers, <- size_list_to_set_distinct.
    change (uniqueUsersOf rows = match events with [] => 0 | _ :: _ => 1 end).
    rewrite (undefined_addresses_count_once rows Hnone).
    assert (Hempty : events = [] -> rows = [])
      by (unfold rows; intros Hev; rewrite Hev; reflexivity).
    clear -Hsum Hempty. clearbody rows. clearbody events.
    destruct rows as [|r rows']; simpl in Hsum.
    + now destruct events.
    + destruct events as [|e events']; [|reflexivity].
      discriminate (Hempty eq_refl).
Qed.

(** ** The Android bucket *)

(** A tuple counted in the Android OS bucket has an agent that contains
    android and none of windows, mac and linux, and it is counted in the
    mobile device bucket. *)
Theorem android_bucket_is_mobile (record : Row) (ua : string) :
  user_agent record = Some ua ->
  osBucketOf record = "Android" ->
  deviceBucketOf record = "mobile"
  /\ ci_contains ua "android"
  /\ ~ ci_contains ua "windows" /\ ~ ci_contains ua "mac" /\ ~ ci_contains ua "linux".
Proof.
  intros Hua Hos. unfold osBucketOf, deviceBucketOf in *. rewrite Hua in *.
  change (default "" (Some ua)) with ua in *.
  unfold osNameOf in Hos. unfold deviceNameOf.
  rewrite <- !includes_lower_ci.
  destruct (includes (toLowerCase ua) "windows"); [discriminate Hos|].
  destruct (includes (toLowerCase ua) "mac"); [discriminate Hos|].
  destruct (includes (toLowerCase ua) "linux"); [discriminate Hos|].
  destruct (includes (toLowerCase ua) "android").
  - rewrite orb_true_r. repeat split; discriminate.
  - destruct (_ || _); discriminate Hos.
Qed.

(** ** The topic report, as a user sees it *)

(** On tuples whose aliases are tokens of the topic and are not
    inherited names, the topic report has totalClicks equal to the sum
    of total_clicks, and urls has exactly one entry per alias that has a
    tuple, carrying the clicks of the tuples of that alias and the number
    of distinct ip_address values among them; user agents play no part. *)
Theorem topic_urls_per_alias (urlsResults : list Urls.row) (rows : list Row) :
  no_inherited_alias rows ->
  (forall record, In record rows -> In (alias record) (map Urls.short_url urlsResults)) ->
  exists report,
    topicReport urlsResults rows = inr report
    /\ TopicReport.totalClicks report = sum_list_with total_clicks rows
    /\ TopicReport.uniqueUsers report = distinct_count (map ip_address rows)
    /\ NoDup (map UrlEntry.shortUrl (TopicReport.urls report))
    /\ (forall a,
          In a (map UrlEntry.shortUrl (TopicReport.urls report)) <-> In a (map alias rows))
    /\ (forall e,
          In e (TopicReport.urls report) ->
          UrlEntry.totalClicks e
          = sum_list_with total_clicks
              (filter (fun record => alias record = UrlEntry.shortUrl e) rows)
          /\ UrlEntry.uniqueUsers e
             = distinct_count
                 (map ip_address
                    (filter (fun record => alias record = UrlEntry.shortUrl e) rows))).
Proof. apply topicReport_regular. Qed.

(** When the topic lookup is answered, the topic report is the 404 'No
    URLs found for the specified topic' exactly when no row of urls has
    the topic, and then the analytics are not queried. *)
Theorem topic_not_found_iff (t : string) (st : Storage) :
  answered st ->
  (response (getTopicReport t st) = TopicNotFound
   <-> forall u, In u (urls st) -> Urls.topic u <> Some t)
  /\ (response (getTopicReport t st) = TopicNotFound ->
      storage (getTopicReport t st) = (pop_outage st).2).
Proof.
  intros Hans. split; [now apply getTopicReport_not_found|].
  unfold getTopicReport, topicUrlsQuery.
  rewrite db_select_answered by exact Hans.
  destruct (filter _ (urls (pop_outage st).2)) as [|u l]; [reflexivity|].
  destruct (topicAnalyticsQuery _ _) as [[msg|rows] st2]; [discriminate|].
  destruct (topicReport _ rows); discriminate.
Qed.

(** ** Instances of the further theorems on the sample data *)

Lemma abc_visited_storage_reachable : reachable no_geoip abc_visited_storage.
Proof.
  exact (reachable_serve no_geoip (CallRedirect 19723%Z abc_visit) _
           (reachable_serve no_geoip (CallShorten abc_request "tok1") _
              (reachable_start no_geoip [] syntax_error))).
Defined.

Lemma abc_visited_storage_answers : answered_twice abc_visited_storage.
Proof. split; vm_compute; discriminate. Defined.

Lemma device_clicks_witness :
  exists report,
    aliasReport scenario_today scenario_rows = inr report
    /\ sum_list_with DeviceEntry.uniqueClicks (AliasReport.deviceType report)
       = AliasReport.totalClicks report.
Proof.
  destruct (device_clicks_sum_to_total scenario_today scenario_rows)
    as (report & Hrun & Hsum & _).
  - repeat constructor; simpl; eauto.
  - exists report. split; [exact Hrun | exact Hsum].
Defined.

Lemma redirect_witness :
  response (redirect no_geoip scenario_today abc_visit abc_storage) = NotFound
  <-> forall u, In u (urls abc_storage) -> ~ matches_alias (param_alias abc_visit) u.
Proof.
  apply (redirect_resolves_or_not_found no_geoip scenario_today abc_visit abc_storage).
  vm_compute. discriminate.
Defined.

Lemma shorten_outcomes_witness :
  exists longUrl0,
    longUrl abc_request = Some longUrl0 /\ longUrl0 <> ""
    /\ CreatedBody "http://localhost:3000/abc"
       = CreatedBody (protocol abc_request ++ "://" ++ host abc_request ++ "/"
                      ++ token_of abc_request "tok1")%string
    /\ urls (storage (shorten abc_request "tok1" empty_storage))
       = urls empty_storage
         ++ [ {| Urls.long_url := longUrl0;
                 Urls.short_url := token_of abc_request "tok1";
                 Urls.custom_alias := truthy (customAlias abc_request);
                 Urls.topic := truthy (topic abc_request) |} ].
Proof.
  apply (proj1 (proj2 (proj2 (proj2 (shorten_outcomes abc_request "tok1" empty_storage))))).
  reflexivity.
Defined.

Lemma shorten_duplicate_witness :
  (forall body, response (shorten plain_request "abc" abc_storage) <> Json 201 body)
  /\ urls (storage (shorten plain_request "abc" abc_storage)) = urls abc_storage.
Proof.
  apply (shorten_never_duplicates_token plain_request "abc" abc_storage).
  eexists. split; [left; reflexivity | reflexivity].
Defined.

Lemma first_query_failure_witness :
  response (serve no_geoip (CallAliasReport scenario_today "abc") abc_storage_lookup_fails)
  = Json 500 (ErrorBody "Database error").
Proof.
  apply (first_query_failure_is_database_error no_geoip
           (CallAliasReport scenario_today "abc") abc_storage_lookup_fails).
  - reflexivity.
  - intros req generated Hc. discriminate Hc.
Defined.

Lemma analytics_failure_witness :
  response (getAliasReport scenario_today "abc" abc_storage_insert_fails)
  = Json 500 (ErrorBody "Error fetching analytics data")
  /\ exists error,
       (analyticsQuery "abc" (pop_outage abc_storage_insert_fails).2).1 = QError error
       /\ console (getAliasReport scenario_today "abc" abc_storage_insert_fails)
          = [LineWithError "Error fetching analytics data:" error].
Proof.
  apply (analytics_query_failure_is_reported scenario_today "abc" "t"
           abc_storage_insert_fails).
  - split; vm_compute; [discriminate | reflexivity].
  - eexists. split; [left; reflexivity | left; reflexivity].
Defined.

Lemma insert_failure_witness :
  response (shorten plain_request "tok2" abc_storage_insert_fails)
  = Json 500 (ErrorBody "Failed to create short URL")
  /\ urls (storage (shorten plain_request "tok2" abc_storage_insert_fails))
     = urls abc_storage_insert_fails
  /\ url_analytics (storage (shorten plain_request "tok2" abc_storage_insert_fails))
     = url_analytics abc_storage_insert_fails.
Proof.
  apply (insert_failure_creates_nothing plain_request "tok2" abc_storage_insert_fails).
  - simpl. discriminate.
  - split; [vm_compute; discriminate | reflexivity].
  - intros a u Ha. discriminate Ha.
Defined.

Lemma created_token_witness :
  response (redirect no_geoip scenario_today abc_visit
              (storage (shorten abc_request "tok1" empty_storage)))
  = Redirect "http://x.com"
  /\ response (getAliasReport scenario_today (token_of abc_request "tok1")
                 (storage (shorten abc_request "tok1" empty_storage))) <> NotFound.
Proof.
  apply (created_token_resolves no_geoip abc_request "tok1" empty_storage
           (CreatedBody "http://localhost:3000/abc") scenario_today scenario_today
           abc_visit "http://x.com").
  - exact (reachable_start no_geoip [] syntax_error).
  - reflexivity.
  - reflexivity.
  - vm_compute. discriminate.
  - reflexivity.
Defined.

Lemma stored_events_witness :
  (exists u, In u (urls abc_visited_storage)
             /\ matches_alias (UrlAnalytics.alias (analyticsEvent no_geoip 19723%Z abc_visit)) u)
  /\ (exists address,
        UrlAnalytics.ip_address (analyticsEvent no_geoip 19723%Z abc_visit) = Some address
        /\ address <> "")
  /\ (exists location,
        UrlAnalytics.geolocation (analyticsEvent no_geoip 19723%Z abc_visit) = Some location).
Proof.
  apply (stored_events_are_well_formed no_geoip abc_visited_storage
           (analyticsEvent no_geoip 19723%Z abc_visit)).
  - exact abc_visited_storage_reachable.
  - left. reflexivity.
Defined.

Lemma stored_events_counted_witness :
  exists report,
    response (getAliasReport scenario_today "abc" abc_visited_storage)
    = Json 200 (AliasReportBody report)
    /\ AliasReport.totalClicks report = List.length (events_of "abc" abc_visited_storage).
Proof.
  destruct (stored_events_are_all_counted scenario_today "abc" abc_visited_storage)
    as (report & Hresp & Htotal & _).
  - exact abc_visited_storage_answers.
  - eexists. split; [left; reflexivity | left; reflexivity].
  - vm_compute. repeat constructor. eexists. reflexivity.
  - exists report. split; [exact Hresp | exact Htotal].
Defined.

Lemma stored_unique_users_witness :
  exists report,
    response (getAliasReport scenario_today "abc" abc_visited_storage)
    = Json 200 (AliasReportBody report)
    /\ AliasReport.uniqueUsers report
       = match events_of "abc" abc_visited_storage with [] => 0 | _ :: _ => 1 end.
Proof.
  destruct (stored_unique_users_is_at_most_one scenario_today "abc" abc_visited_storage)
    as (report & Hresp & Husers & _).
  - exact abc_visited_storage_answers.
  - eexists. split; [left; reflexivity | left; reflexivity].
  - vm_compute. repeat constructor. eexists. reflexivity.
  - exists report. split; [exact Hresp | exact Husers].
Defined.

Lemma report_order_witness :
  exists report,
    aliasReport scenario_today scenario_rows = inr report
    /\ map OsEntry.osName (AliasReport.osType report)
       = first_occurrences (map osBucketOf scenario_rows).
Proof.
  destruct (report_sequences_in_first_seen_order scenario_today scenario_rows)
    as (report & Hrun & _ & Hos & _).
  - repeat constructor; simpl; eauto.
  - exists report. split; [exact Hrun | exact Hos].
Defined.

Lemma topic_rows_regular :
  no_inherited_alias topic_rows
  /\ forall record, In record topic_rows ->
                    In (alias record) (map Urls.short_url topic_urls).
Proof.
  split.
  - repeat constructor; simpl; intuition discriminate.
  - intros record [<-|[<-|[]]]; simpl; auto.
Defined.

Lemma topic_urls_witness :
  exists report,
    topicReport topic_urls topic_rows = inr report
    /\ TopicReport.totalClicks report = sum_list_with total_clicks topic_rows
    /\ NoDup (map UrlEntry.shortUrl (TopicReport.urls report)).
Proof.
  destruct (topic_urls_per_alias topic_urls topic_rows
              (proj1 topic_rows_regular) (proj2 topic_rows_regular))
    as (report & Hrun & Htotal & _ & Hnd & _).
  exists report. split; [exact Hrun | split; [exact Htotal | exact Hnd]].
Defined.

Lemma topic_dates_witness :
  exists report,
    topicReport topic_urls topic_rows = inr report
    /\ NoDup (map ClickCount.date (TopicReport.clicksByDate report)).
Proof.
  destruct (topic_dates_have_no_window topic_urls topic_rows
              (proj1 topic_rows_regular) (proj2 topic_rows_regular))
    as (report & Hrun & Hnd & _).
  exists report. split; [exact Hrun | exact Hnd].
Defined.

Lemma topic_stored_witness :
  exists report,
    response (getTopicReport "t" abc_visited_storage) = Json 200 (TopicReportBody report)
    /\ TopicReport.totalClicks report = List.length (events_of_topic "t" abc_visited_storage).
Proof.
  destruct (topic_report_of_stored_events "t" abc_visited_storage)
    as (report & Hresp & Htotal & _).
  - exact abc_visited_storage_answers.
  - intros u [<-|[]] _. reflexivity.
  - eexists. split; [left; reflexivity | reflexivity].
  - vm_compute. repeat constructor. intuition discriminate.
  - exists report. split; [exact Hresp | exact Htotal].
Defined.

Lemma topic_not_found_witness :
  response (getTopicReport "nope" abc_storage) = TopicNotFound
  <-> forall u, In u (urls abc_storage) -> Urls.topic u <> Some "nope".
Proof.
  apply (topic_not_found_iff "nope" abc_storage).
  vm_compute. discriminate.
Defined.

Lemma android_witness :
  deviceBucketOf firefox_android_row = "mobile".
Proof.
  apply (android_bucket_is_mobile firefox_android_row
           "Mozilla/5.0 (Android 13; Mobile; rv:109.0) Gecko/119.0 Firefox/119.0").
  - reflexivity.
  - vm_compute. reflexivity.
Defined.
